(** * microscopic-etcd-registry: service registration and discovery on etcd

    A shallow embedding of [lib/index.js] (options stored under a separate
    per-name key, promise-returning [getServiceOptions]) and of its sibling
    revision (options stored inside the record, with [getServiceNode]).

    External collaborators are kept abstract: the etcd client, the uuid
    generator and the timer are operations on a world [W]; [JsonUtils] is a
    type class.  Node's [path.join] and [path.basename] are written out
    (POSIX flavour).  A reference world ([EtcdModel]) with TTL leases gives
    the definitions something to run on. *)

From Stdlib Require Import ZArith String Ascii List Bool Lia DecimalString.
From stdpp Require Import base option list gmap strings.

Import ListNotations.
Local Open Scope string_scope.
Local Open Scope Z_scope.
Local Open Scope list_scope.

(* ===================================================================== *)
(** ** Node's [path] module, POSIX flavour *)
(* ===================================================================== *)

(** [s.split(c)] for a one-character separator. *)
Fixpoint split_on (c : ascii) (s : string) : list string :=
  match s with
  | EmptyString => [EmptyString]
  | String a rest =>
      if Ascii.eqb a c then EmptyString :: split_on c rest
      else match split_on c rest with
           | seg :: segs => String a seg :: segs
           | [] => [String a EmptyString]
           end
  end.

Module Path.

Definition sep : ascii := "/"%char.

Definition split (s : string) : list string := split_on sep s.

Definition nonempty (s : string) : bool := negb (String.eqb s EmptyString).

(** One step of [normalizeString]: [res] is the list of segments kept so
    far, last one first. *)
Definition push_segment (allowAboveRoot : bool) (res : list string)
    (seg : string) : list string :=
  if String.eqb seg EmptyString || String.eqb seg "." then res
  else if String.eqb seg ".." then
    match res with
    | last :: rest =>
        if String.eqb last ".."
        then (if allowAboveRoot then ".." :: res else res)
        else rest
    | [] => if allowAboveRoot then [".."] else []
    end
  else seg :: res.

Definition normalizeString (path : string) (allowAboveRoot : bool) : string :=
  String.concat "/"
    (rev (fold_left (push_segment allowAboveRoot) (split path) [])).

Definition starts_with_sep (s : string) : bool :=
  match s with
  | String c _ => Ascii.eqb c sep
  | EmptyString => false
  end.

Fixpoint ends_with_sep (s : string) : bool :=
  match s with
  | EmptyString => false
  | String c EmptyString => Ascii.eqb c sep
  | String _ rest => ends_with_sep rest
  end.

Definition normalize (path : string) : string :=
  if String.eqb path EmptyString then "."
  else
    let isAbsolute := starts_with_sep path in
    let trailingSeparator := ends_with_sep path in
    let p := normalizeString path (negb isAbsolute) in
    if String.eqb p EmptyString then
      (if isAbsolute then "/" else if trailingSeparator then "./" else ".")
    else
      let p' := if trailingSeparator then p +:+ "/" else p in
      if isAbsolute then "/" +:+ p' else p'.

(** [path.join(...paths)]: empty arguments are skipped, the rest is glued
    with the separator and normalised. *)
Definition join (paths : list string) : string :=
  match List.filter nonempty paths with
  | [] => "."
  | args => normalize (String.concat "/" args)
  end.

(** [path.basename(path)]: the last non-empty segment. *)
Definition basename (path : string) : string :=
  List.last (List.filter nonempty (split path)) EmptyString.

(** A string that is one ordinary path segment. *)
Fixpoint no_sep (s : string) : bool :=
  match s with
  | EmptyString => true
  | String c rest => negb (Ascii.eqb c sep) && no_sep rest
  end.

Definition plain_segment (s : string) : bool :=
  no_sep s && nonempty s && negb (String.eqb s ".") && negb (String.eqb s "..").

End Path.

(* ===================================================================== *)
(** ** Data model and external collaborators *)
(* ===================================================================== *)

(** [connection] and [options] are opaque to the registry: only stored and
    handed back. *)
Definition Blob := string.

(** [ServiceDefinition]; [options] is present only in the revision that
    keeps the options inside the record.  What is read back from the store
    is taken at this type, as the typedef of the source has it. *)
Module ServiceDefinition.
Record t := {
  id : string;
  name : string;
  connection : Blob;
  options : option Blob
}.
End ServiceDefinition.
Abbreviation ServiceDefinition := ServiceDefinition.t.

(** The third argument of [etcd.set]; an absent [ttl] is [None]. *)
Record SetOptions := { maxRetries : Z; ttl : option Z }.

(** A node of an etcd response: leaves carry [value], directories [nodes]. *)
#[warnings="-register-all"]
Inductive EtcdNode :=
  Node (key : string) (value : option string) (nodes : option (list EtcdNode)).

Definition node_key (n : EtcdNode) : string := let 'Node k _ _ := n in k.
Definition node_value (n : EtcdNode) : option string := let 'Node _ v _ := n in v.
Definition node_nodes (n : EtcdNode) : option (list EtcdNode) :=
  let 'Node _ _ ns := n in ns.

Record Body := { node : option EtcdNode }.

(** What a read hands back: [{err, body}] for [getSync], the callback's
    [(error, body)] for [get]. *)
Record Response := { err : option string; body : option Body }.

(** The id handed to [renew] is whatever the caller passes. *)
Inductive JsValue := JsUndefined | JsNumber (n : Z) | JsString (s : string).

(** [s === v] for a string [s]. *)
Definition strict_eq (s : string) (v : JsValue) : bool :=
  match v with
  | JsString s' => String.eqb s s'
  | _ => false
  end.

(** [JsonUtils.stringify] and [JsonUtils.parse] of microscopic-utils, at
    the type the caller uses the value at.  [parse] receives [node.value],
    which may be undefined ([None]); a [None] result is a raised exception. *)
Class JsonUtils (A : Type) := {
  stringify : A -> string;
  parse : option string -> option A
}.

(** The world outside the registry: the etcd client ([set], [getSync]
    with [{ recursive: true }], [get] with its [recursive] flag),
    [Random.uuid] and the passing of a [setTimeout] delay. *)
Class World (W : Type) := {
  etcd_set : string -> string -> SetOptions -> W -> W;
  etcd_getSync : string -> W -> Response * W;
  etcd_get : string -> bool -> W -> Response * W;
  Random_uuid : W -> string * W;
  timer_wait : Z -> W -> W
}.

(** Calls that leave the registry, in the order they are made. *)
Inductive Event :=
| ESet (key : string) (value : string) (opts : SetOptions)
| EGetSync (key : string)
| EGet (key : string)
| EWatcher (key : string)
| ESetTimeout (ms : Z)
| EUncaught.

Definition is_write (e : Event) : bool :=
  match e with ESet _ _ _ => true | _ => false end.

Definition is_read (e : Event) : bool :=
  match e with EGetSync _ | EGet _ => true | _ => false end.

Definition is_delay (e : Event) : bool :=
  match e with ESetTimeout _ => true | _ => false end.

Inductive Error :=
| StoreError (msg : string)
| NotFoundAnyNode
| SyntaxError
| TypeError.

(** How a JavaScript call ends. *)
Inductive Completion (A : Type) :=
| Normal (a : A)
| Throw (e : Error).
Arguments Normal {A} a.
Arguments Throw {A} e.

(** A promise that [resolve] settles at most once. *)
Inductive Promise (A : Type) :=
| Pending
| Resolved (v : option A).
Arguments Pending {A}.
Arguments Resolved {A} v.

Definition resolve {A} (v : option A) (p : Promise A) : Promise A :=
  match p with
  | Pending => Resolved v
  | Resolved _ => p
  end.

Definition SERVICES_KEY : string := "services".
Definition SERVICES_OPTIONS_KEY : string := "services-options".
Definition TTL_SECONDS : Z := 120.

(** [a || b] on numbers that may be undefined. *)
Definition js_or (a : option Z) (b : Z) : Z :=
  match a with
  | Some x => if x =? 0 then b else x
  | None => b
  end.

(* ===================================================================== *)
(** ** The registry *)
(* ===================================================================== *)

Module Registry.
Section WithWorld.

Context {W : Type} `{!World W}.
Context `{!JsonUtils ServiceDefinition} `{!JsonUtils Blob}.

(** The hidden fields of an [ETCDServiceRegistry], with the calls made so
    far. *)
Record t := {
  _etcd : W;
  _options : gmap string Z;
  _services : gmap string (list ServiceDefinition);
  trace : list Event
}.

Definition with_etcd (w : W) (r : t) : t :=
  {| _etcd := w; _options := _options r; _services := _services r;
     trace := trace r |}.
Definition with_services (c : gmap string (list ServiceDefinition)) (r : t) : t :=
  {| _etcd := _etcd r; _options := _options r; _services := c;
     trace := trace r |}.
Definition log (e : Event) (r : t) : t :=
  {| _etcd := _etcd r; _options := _options r; _services := _services r;
     trace := trace r ++ [e] |}.

(** Code that reads and updates the registry and may raise. *)
Definition M (A : Type) : Type := t -> Completion A * t.

Definition ret {A} (a : A) : M A := fun r => (Normal a, r).
Definition throw {A} (e : Error) : M A := fun r => (Throw e, r).
Definition bind {A B} (m : M A) (k : A -> M B) : M B :=
  fun r => match m r with
           | (Normal a, r') => k a r'
           | (Throw e, r') => (Throw e, r')
           end.
Definition try_catch {A} (m : M A) (handler : Error -> M A) : M A :=
  fun r => match m r with
           | (Normal a, r') => (Normal a, r')
           | (Throw e, r') => handler e r'
           end.

Notation "x <- c1 ;; c2" := (bind c1 (fun x => c2))
  (at level 100, c1 at next level, right associativity).
Notation "c1 ;;; c2" := (bind c1 (fun _ => c2))
  (at level 100, right associativity).

Definition get_services : M (gmap string (list ServiceDefinition)) :=
  fun r => (Normal (_services r), r).
Definition get_options : M (gmap string Z) :=
  fun r => (Normal (_options r), r).

(** [this[_etcd].set(key, value, opts)]; the request is taken to reach
    the store in the order it is sent. *)
Definition set (key value : string) (opts : SetOptions) : M unit :=
  fun r => (Normal tt,
            log (ESet key value opts)
                (with_etcd (etcd_set key value opts (_etcd r)) r)).

(** [this[_etcd].getSync(key, { recursive: true })] *)
Definition getSync (key : string) : M Response :=
  fun r => let '(res, w) := etcd_getSync key (_etcd r) in
           (Normal res, log (EGetSync key) (with_etcd w r)).

(** [Random.uuid()] *)
Definition uuid : M string :=
  fun r => let '(u, w) := Random_uuid (_etcd r) in (Normal u, with_etcd w r).

(** [nodes.map((node) => JsonUtils.parse(node.value))]: the first value
    that does not parse raises. *)
Fixpoint parse_nodes {A} `{JsonUtils A} (nodes : list EtcdNode)
    : Completion (list A) :=
  match nodes with
  | [] => Normal []
  | n :: rest =>
      match parse (node_value n) with
      | None => Throw SyntaxError
      | Some v =>
          match parse_nodes rest with
          | Normal vs => Normal (v :: vs)
          | Throw e => Throw e
          end
      end
  end.

Definition lift {A} (c : Completion A) : M A := fun r => (c, r).

(** [_saveService (service)] *)
Definition _saveService (service : ServiceDefinition) : M unit :=
  let key := Path.join [SERVICES_KEY; ServiceDefinition.name service;
                        ServiceDefinition.id service] in
  opts <- get_options ;;
  set key (stringify service) {| maxRetries := 3; ttl := opts !! "ttl" |}.

(** [_saveServiceOptions (serviceName, options)] *)
Definition _saveServiceOptions (serviceName : string) (options : Blob) : M unit :=
  let key := Path.join [SERVICES_OPTIONS_KEY; serviceName] in
  set key (stringify options) {| maxRetries := 3; ttl := None |}.

(** [_loadServices ()] up to the point where the asynchronous read is
    sent: the cache is cleared at once. *)
Definition _loadServices (r : t) : t :=
  log (EGet SERVICES_KEY) (with_services ∅ r).

(** The loop of the callback of [_loadServices]. *)
Fixpoint _loadServices_each (services : list EtcdNode) (r : t) : Completion unit * t :=
  match services with
  | [] => (Normal tt, r)
  | service :: rest =>
      let name := Path.basename (node_key service) in
      match node_nodes service with
      | Some ns =>
          match parse_nodes ns with
          | Normal nodes =>
              _loadServices_each rest
                (with_services (<[name := nodes]> (_services r)) r)
          | Throw e => (Throw e, r)
          end
      | None => _loadServices_each rest r
      end
  end.

(** The callback of [_loadServices], run when the read is answered. *)
Definition _loadServices_callback (res : Response) (r : t) : Completion unit * t :=
  match err res with
  | Some _ => (Normal tt, r)
  | None =>
      match body res with
      | None => (Throw TypeError, r)
      | Some {| node := Some (Node _ _ (Some services)) |} =>
          _loadServices_each services r
      | Some _ => (Normal tt, r)
      end
  end.

(** The world answers the read that [_loadServices] sent. *)
Definition deliver_loadServices (r : t) : Completion unit * t :=
  let '(res, w) := etcd_get SERVICES_KEY true (_etcd r) in
  _loadServices_callback res (with_etcd w r).

(** [_initWatcher ()] *)
Definition _initWatcher (r : t) : t :=
  log (EWatcher SERVICES_KEY) (_loadServices r).

(** [constructor (hosts, options = {})]; [hosts] stands for the client
    that [new Etcd(hosts)] builds. *)
Definition constructor (hosts : W) (options : gmap string Z) : t :=
  _initWatcher
    {| _services := ∅;
       _etcd := hosts;
       _options := <["tll" := js_or (options !! "ttl") TTL_SECONDS]> options;
       trace := [] |}.

(** The [try] block of [_getService].  The cache is the one the call
    started with: no reload is delivered while the synchronous call runs. *)
Definition _getService_try (name : string) : M (option (list ServiceDefinition)) :=
  cache <- get_services ;;
  match cache !! name with
  | Some (n :: ns) => ret (Some (n :: ns))
  | _ =>
      let key := Path.join [SERVICES_KEY; name] in
      result <- getSync key ;;
      match err result with
      | Some e => throw (StoreError e)
      | None =>
          match body result with
          | Some {| node := Some (Node _ _ (Some (s :: ss))) |} =>
              nodes <- lift (parse_nodes (s :: ss)) ;;
              ret (Some nodes)
          | _ => throw NotFoundAnyNode
          end
      end
  end.

(** [_getService (maxRetries, name)]; [maxRetries] counts down to 0,
    [None] is [undefined]. *)
Fixpoint _getService (maxRetries : nat) (name : string)
    : M (option (list ServiceDefinition)) :=
  try_catch (_getService_try name)
    (fun error =>
       match maxRetries with
       | O => ret None
       | S m => _getService m name
       end).

(** [getService (name)] *)
Definition getService (name : string) : M (option (list ServiceDefinition)) :=
  _getService 5 name.

(** [register (name, connectionConfig, options = {})] *)
Definition register (name : string) (connectionConfig : Blob) (options : Blob) : M string :=
  u <- uuid ;;
  let service := {| ServiceDefinition.id := u;
                    ServiceDefinition.name := name;
                    ServiceDefinition.connection := connectionConfig;
                    ServiceDefinition.options := None |} in
  _saveService service ;;;
  _saveServiceOptions (ServiceDefinition.name service) options ;;;
  ret (ServiceDefinition.id service).

(** [renew (name, id)] *)
Definition renew (name : string) (id : JsValue) : M unit :=
  nodes <- getService name ;;
  match nodes with
  | None => ret tt
  | Some nodes =>
      match List.find (fun node => strict_eq (ServiceDefinition.id node) id) nodes with
      | None => ret tt
      | Some node => _saveService node
      end
  end.

Definition MAX_RETRIES : Z := 10.

(** [this[_etcd].get(key, callback)]: the answer the callback receives. *)
Definition get (key : string) (r : t) : Response * t :=
  let '(res, w) := etcd_get key false (_etcd r) in
  (res, log (EGet key) (with_etcd w r)).

(** [setTimeout(f, ms)]: the world moves on for [ms] before [f] runs. *)
Definition setTimeout (ms : Z) (r : t) : t :=
  log (ESetTimeout ms) (with_etcd (timer_wait ms (_etcd r)) r).

(** The inner [_getServiceOptions (maxRetries, resolve)] with the promise
    it settles.  The function re-arms itself from a timer for as long as
    reads fail, so the embedding counts the reads it is allowed to make in
    [fuel]; with no fuel left the promise is returned as it stands. *)
Fixpoint _getServiceOptions_inner (fuel : nat) (name : string)
    (maxRetries : Z) (p : Promise Blob) (r : t) : Promise Blob * t :=
  match fuel with
  | O => (p, r)
  | S fuel' =>
      let key := Path.join [SERVICES_OPTIONS_KEY; name] in
      let '(res, r1) := get key r in
      match err res, body res with
      | None, Some {| node := Some n |} =>
          match parse (node_value n) with
          | Some v => (resolve (Some v) p, r1)
          | None => (p, log EUncaught r1)
          end
      | _, _ =>
          let p1 := if maxRetries <=? 0 then resolve None p else p in
          _getServiceOptions_inner fuel' name (maxRetries - 1) p1
            (setTimeout ((MAX_RETRIES - maxRetries) * 500) r1)
      end
  end.

(** [_getServiceOptions (name)] *)
Definition _getServiceOptions (fuel : nat) (name : string) (r : t)
    : Promise Blob * t :=
  _getServiceOptions_inner fuel name MAX_RETRIES Pending r.

(** [getServiceOptions (serviceName)] *)
Definition getServiceOptions (fuel : nat) (serviceName : string) (r : t)
    : Promise Blob * t :=
  _getServiceOptions fuel serviceName r.

End WithWorld.
Arguments t W : clear implicits.
End Registry.

(* ===================================================================== *)
(** ** The revision that keeps the options inside the record *)
(* ===================================================================== *)

(** [constructor], [renew], [getService], [_saveService], [_initWatcher],
    [_loadServices] and [_getService] are the same text in both revisions;
    this one has its own [register] and adds [getServiceNode]. *)
Module InlineOptions.
Section WithWorld.

Context {W : Type} `{!World W}.
Context `{!JsonUtils ServiceDefinition}.

Definition getService := Registry.getService (W := W).
Definition renew := Registry.renew (W := W).
Definition _saveService := Registry._saveService (W := W).

(** [register (name, connectionConfig, options = {})] *)
Definition register (name : string) (connectionConfig : Blob) (options : Blob)
    : Registry.M string :=
  Registry.bind Registry.uuid (fun u =>
    let service := {| ServiceDefinition.id := u;
                      ServiceDefinition.name := name;
                      ServiceDefinition.connection := connectionConfig;
                      ServiceDefinition.options := Some options |} in
    Registry.bind (_saveService service) (fun _ =>
      Registry.ret (ServiceDefinition.id service))).

(** [getServiceNode (name)] *)
Definition getServiceNode (name : string) : Registry.M (option ServiceDefinition) :=
  Registry.bind (getService name) (fun nodes =>
    Registry.ret
      match nodes with
      | Some (n :: _) => Some n
      | _ => None
      end).

End WithWorld.
End InlineOptions.

(* ===================================================================== *)
(** ** Vocabulary for stating what a lookup does *)
(* ===================================================================== *)

Module Lookup.
Section WithWorld.

Context {W : Type} `{!World W}.
Context `{!JsonUtils ServiceDefinition}.

(** The cached list for [name] when it passes [nodes && nodes.length]. *)
Definition cached (cache : gmap string (list ServiceDefinition)) (name : string)
    : option (list ServiceDefinition) :=
  match cache !! name with
  | Some (n :: ns) => Some (n :: ns)
  | _ => None
  end.

(** How the [try] block ends on a given answer of the store. *)
Definition read_outcome (res : Response)
    : Completion (option (list ServiceDefinition)) :=
  match err res with
  | Some e => Throw (StoreError e)
  | None =>
      match body res with
      | Some {| node := Some (Node _ _ (Some (s :: ss))) |} =>
          match Registry.parse_nodes (s :: ss) with
          | Normal nodes => Normal (Some nodes)
          | Throw e => Throw e
          end
      | _ => Throw NotFoundAnyNode
      end
  end.

Definition read_fails (res : Response) : bool :=
  match read_outcome res with
  | Throw _ => true
  | Normal _ => false
  end.

(** The answer carries at least one node and one of the values does not
    deserialize. *)
Definition read_malformed (res : Response) : bool :=
  match err res, body res with
  | None, Some {| node := Some (Node _ _ (Some (s :: ss))) |} =>
      match Registry.parse_nodes (A := ServiceDefinition) (s :: ss) with
      | Throw _ => true
      | Normal _ => false
      end
  | _, _ => false
  end.

(** The registry after one [getSync(key)]. *)
Definition read_step (key : string) (r : Registry.t W) : Registry.t W :=
  Registry.log (EGetSync key)
    (Registry.with_etcd (snd (etcd_getSync key (Registry._etcd r))) r).

(** The registry after [k] reads of [key] in a row. *)
Fixpoint after_reads (key : string) (k : nat) (r : Registry.t W) : Registry.t W :=
  match k with
  | O => r
  | S k' => after_reads key k' (read_step key r)
  end.

(** The next [n] reads of [key] all satisfy [bad]. *)
Fixpoint next_reads (bad : Response -> bool) (n : nat) (key : string) (w : W) : bool :=
  match n with
  | O => true
  | S m =>
      bad (fst (etcd_getSync key w)) &&
      next_reads bad m key (snd (etcd_getSync key w))
  end.

(** The resolution order in the spec's words: the cached list when it has
    a record; otherwise up to [attempts] reads of the store, the first
    that finds records wins; not found ([undefined]) when none does. *)
Fixpoint retried_read (attempts : nat) (key : string) (r : Registry.t W)
    : Completion (option (list ServiceDefinition)) * Registry.t W :=
  match attempts with
  | O => (Normal None, r)
  | S k =>
      match read_outcome (fst (etcd_getSync key (Registry._etcd r))) with
      | Normal found => (Normal found, read_step key r)
      | Throw _ => retried_read k key (read_step key r)
      end
  end.

Definition resolution_order (name : string) (r : Registry.t W)
    : Completion (option (list ServiceDefinition)) * Registry.t W :=
  match cached (Registry._services r) name with
  | Some nodes => (Normal (Some nodes), r)
  | None => retried_read 6 (Path.join [SERVICES_KEY; name]) r
  end.

(** The events a registry has added to its trace since [r]. *)
Definition events_since (r r' : Registry.t W) : list Event :=
  drop (length (Registry.trace r)) (Registry.trace r').

(** The callback of [_getServiceOptions] takes the failure branch:
    [error || !body || !body.node]. *)
Definition get_fails (res : Response) : bool :=
  match err res, body res with
  | None, Some {| node := Some _ |} => false
  | _, _ => true
  end.

(** The next [n] reads of the options key fail, the world moving on by
    the delay the code waits after each. *)
Fixpoint options_reads_fail (n : nat) (key : string) (maxRetries : Z) (w : W) : bool :=
  match n with
  | O => true
  | S m =>
      get_fails (fst (etcd_get key false w)) &&
      options_reads_fail m key (maxRetries - 1)
        (timer_wait ((Registry.MAX_RETRIES - maxRetries) * 500)
           (snd (etcd_get key false w)))
  end.

(** What [n] failed reads in a row leave in the trace, starting with
    [maxRetries] retries left. *)
Fixpoint failed_attempts (n : nat) (key : string) (maxRetries : Z) : list Event :=
  match n with
  | O => []
  | S m =>
      EGet key :: ESetTimeout ((Registry.MAX_RETRIES - maxRetries) * 500)
        :: failed_attempts m key (maxRetries - 1)
  end.

(** The promise after [n] failed reads in a row. *)
Fixpoint settled {A} (n : nat) (maxRetries : Z) (p : Promise A) : Promise A :=
  match n with
  | O => p
  | S m =>
      settled m (maxRetries - 1)
        (if maxRetries <=? 0 then resolve None p else p)
  end.

(** No two reads follow each other without a delay in between. *)
Fixpoint delay_between_reads (events : list Event) : bool :=
  match events with
  | e1 :: rest =>
      match rest with
      | e2 :: _ => negb (is_read e1 && is_read e2)
      | [] => true
      end && delay_between_reads rest
  | [] => true
  end.

Definition write_key (e : Event) : option string :=
  match e with
  | ESet key _ _ => Some key
  | _ => None
  end.

End WithWorld.
End Lookup.

(* ===================================================================== *)
(** ** A reference world: an etcd with TTL leases *)
(* ===================================================================== *)

(** Modelled from the spec: the store behind the Store Adapter contract
    ([get], [set] with an optional ttl), which is not part of the
    repository.  A TTL lease is "a time-bounded validity period attached to
    a stored key; the store removes the key automatically at expiry unless
    refreshed".  Keys are lists of segments, a lease is an absolute expiry
    time in milliseconds (the ttl counts seconds), an expired entry is no
    longer listed.  Reads leave the world as it is; only [timer_wait] moves
    the clock. *)
Module EtcdModel.

Record Entry := { e_value : string; e_expires : option Z }.

Record t := {
  now : Z;
  entries : list (list string * Entry);
  uuids : nat
}.

Definition initial : t := {| now := 0; entries := []; uuids := 0 |}.

Definition key_segments (key : string) : list string :=
  List.filter Path.nonempty (Path.split key).

Definition render (segs : list string) : string :=
  "/" +:+ String.concat "/" segs.

Fixpoint segs_eqb (a b : list string) : bool :=
  match a, b with
  | [], [] => true
  | x :: a', y :: b' => String.eqb x y && segs_eqb a' b'
  | _, _ => false
  end.

(** Modelled from the spec: an entry without a lease never expires, one
    with a lease is gone once its time is up. *)
Definition live (now : Z) (e : Entry) : bool :=
  match e_expires e with
  | None => true
  | Some deadline => now <? deadline
  end.

Fixpoint put (k : list string) (e : Entry) (l : list (list string * Entry))
    : list (list string * Entry) :=
  match l with
  | [] => [(k, e)]
  | (k', e') :: rest =>
      if segs_eqb k k' then (k, e) :: rest else (k', e') :: put k e rest
  end.

Fixpoint find_entry (k : list string) (l : list (list string * Entry)) : option Entry :=
  match l with
  | [] => None
  | (k', e') :: rest => if segs_eqb k k' then Some e' else find_entry k rest
  end.

(** What is left of [segs] below [prefix]. *)
Fixpoint strip (prefix segs : list string) : option (list string) :=
  match prefix, segs with
  | [], _ => Some segs
  | p :: ps, s :: ss => if String.eqb p s then strip ps ss else None
  | _ :: _, [] => None
  end.

Definition below (now : Z) (dir : list string) (l : list (list string * Entry))
    : list (list string * Entry) :=
  List.filter (fun '(k, e) =>
                 live now e &&
                 match strip dir k with
                 | Some (_ :: _) => true
                 | _ => false
                 end) l.

Fixpoint dedup (l : list string) : list string :=
  match l with
  | [] => []
  | x :: rest =>
      if existsb (String.eqb x) rest then dedup rest else x :: dedup rest
  end.

(** The nodes listed under directory [dir], [depth] levels deep. *)
Fixpoint children (depth : nat) (now : Z) (dir : list string)
    (l : list (list string * Entry)) : list EtcdNode :=
  match depth with
  | O => []
  | S d =>
      let under := below now dir l in
      let leaves :=
        flat_map (fun '(k, e) =>
                    match strip dir k with
                    | Some [_] => [Node (render k) (Some (e_value e)) None]
                    | _ => []
                    end) under in
      let subdirs :=
        dedup (flat_map (fun '(k, _) =>
                           match strip dir k with
                           | Some (x :: _ :: _) => [x]
                           | _ => []
                           end) under) in
      leaves ++
      List.map (fun x =>
                  Node (render (dir ++ [x])) None
                    (match d with
                     | O => None
                     | S _ => Some (children d now (dir ++ [x]) l)
                     end)) subdirs
  end.

Definition key_not_found : Response :=
  {| err := Some "Key not found"; body := None |}.

(** Modelled from the spec: [get(key, {recursive?}) -> node-tree |
    not-found]. *)
Definition read (depth : nat) (key : string) (w : t) : Response :=
  let k := key_segments key in
  match find_entry k (entries w) with
  | Some e =>
      if live (now w) e
      then {| err := None;
              body := Some {| node := Some (Node (render k) (Some (e_value e)) None) |} |}
      else key_not_found
  | None =>
      match children depth (now w) k (entries w) with
      | [] => key_not_found
      | ns => {| err := None;
                 body := Some {| node := Some (Node (render k) None (Some ns)) |} |}
      end
  end.

(** Modelled from the spec: [set(key, serialized-value, {ttl?})]; a write
    replaces the entry and its lease. *)
Definition write (key value : string) (opts : SetOptions) (w : t) : t :=
  {| now := now w;
     entries := put (key_segments key)
                  {| e_value := value;
                     e_expires := (fun s => now w + 1000 * s) <$> ttl opts |}
                  (entries w);
     uuids := uuids w |}.

Definition wait (ms : Z) (w : t) : t :=
  {| now := now w + ms; entries := entries w; uuids := uuids w |}.

Definition fresh_uuid (w : t) : string * t :=
  ("id-" +:+ NilEmpty.string_of_uint (Nat.to_uint (uuids w)),
   {| now := now w; entries := entries w; uuids := S (uuids w) |}).

#[export] Instance world : World t := {|
  etcd_set := write;
  etcd_getSync := fun key w => (read 8 key w, w);
  etcd_get := fun key recursive w => (read (if recursive then 8%nat else 1%nat) key w, w);
  Random_uuid := fresh_uuid;
  timer_wait := wait
|}.

(** A stand-in for [JsonUtils] on records: the fields separated by a
    bar.  A value with the wrong number of fields does not parse. *)
#[export] Instance json_service : JsonUtils ServiceDefinition := {|
  stringify := fun s =>
    String.concat "|"
      ([ServiceDefinition.id s; ServiceDefinition.name s;
        ServiceDefinition.connection s] ++
       match ServiceDefinition.options s with
       | Some o => [o]
       | None => []
       end);
  parse := fun v =>
    match v with
    | None => None
    | Some text =>
        match split_on "|" text with
        | [i; n; c] =>
            Some {| ServiceDefinition.id := i; ServiceDefinition.name := n;
                    ServiceDefinition.connection := c;
                    ServiceDefinition.options := None |}
        | [i; n; c; o] =>
            Some {| ServiceDefinition.id := i; ServiceDefinition.name := n;
                    ServiceDefinition.connection := c;
                    ServiceDefinition.options := Some o |}
        | _ => None
        end
    end
|}.

(** A stand-in for [JsonUtils] on blobs: a blob is its own text. *)
#[export] Instance json_blob : JsonUtils Blob := {|
  stringify := fun o => o;
  parse := fun v => v
|}.

(** No live entry is stored at [dir] or anywhere below it. *)
Definition nothing_live_under (dir : list string) (w : t) : bool :=
  match find_entry dir (entries w) with
  | Some e => negb (live (now w) e)
  | None => true
  end &&
  match below (now w) dir (entries w) with
  | [] => true
  | _ :: _ => false
  end.

(** One more party moving the clock, between two calls of the registry. *)
Definition elapse (ms : Z) (r : Registry.t t) : Registry.t t :=
  Registry.with_etcd (wait ms (Registry._etcd r)) r.

(** A change event reaches the watcher: the cache is reloaded. *)
Definition on_change (r : Registry.t t) : Registry.t t :=
  snd (Registry.deliver_loadServices (Registry._loadServices r)).

End EtcdModel.

(* ===================================================================== *)
(** ** Scenarios on the reference world *)
(* ===================================================================== *)

Module Scenario.

#[local] Existing Instances EtcdModel.world EtcdModel.json_service EtcdModel.json_blob.

(** [new ETCDRegistry(hosts)] *)
Definition plain : Registry.t EtcdModel.t :=
  Registry.constructor EtcdModel.initial ∅.

(** [new ETCDRegistry(hosts, { ttl: 5 })] *)
Definition with_ttl : Registry.t EtcdModel.t :=
  Registry.constructor EtcdModel.initial (<["ttl" := 5]> ∅).

(** ... then [register('test', conn, opts)]. *)
Definition registered : Registry.t EtcdModel.t :=
  snd (Registry.register "test" "conn" "opts" with_ttl).

(** ... then the watcher has reloaded the cache. *)
Definition synchronized : Registry.t EtcdModel.t :=
  EtcdModel.on_change registered.

(** ... or six seconds have passed instead. *)
Definition lapsed : Registry.t EtcdModel.t :=
  EtcdModel.elapse 6000 registered.

(** A store in which one of the two values under [services/test] is not
    a serialized record. *)
Definition damaged_store : EtcdModel.t :=
  EtcdModel.write "services/test/b" "garbage" {| maxRetries := 3; ttl := None |}
    (EtcdModel.write "services/test/a" "a|test|conn"
       {| maxRetries := 3; ttl := None |} EtcdModel.initial).

Definition damaged : Registry.t EtcdModel.t :=
  Registry.constructor damaged_store ∅.

Definition the_record : ServiceDefinition :=
  {| ServiceDefinition.id := "id-0"; ServiceDefinition.name := "test";
     ServiceDefinition.connection := "conn"; ServiceDefinition.options := None |}.

End Scenario.

(* ===================================================================== *)
(** ** Vocabulary for the cache reload and for an options lookup *)
(* ===================================================================== *)

Module Reload.
Section WithCodec.

Context `{!JsonUtils ServiceDefinition}.

(** The directories an answer to the reload lists, when it lists any:
    no [err], a [body], a [node] and its [nodes]. *)
Definition listing (res : Response) : option (list EtcdNode) :=
  match err res, body res with
  | None, Some {| node := Some (Node _ _ (Some services)) |} => Some services
  | _, _ => None
  end.

(** The values of a listed directory all deserialize (a directory without
    [nodes] is passed over by the loop and counts as fine). *)
Definition loads (service : EtcdNode) : bool :=
  match node_nodes service with
  | Some ns =>
      match Registry.parse_nodes (A := ServiceDefinition) ns with
      | Normal _ => true
      | Throw _ => false
      end
  | None => true
  end.

(** The loop stores the directory under [name]. *)
Definition stored_as (name : string) (service : EtcdNode) : bool :=
  match node_nodes service with
  | Some _ => String.eqb (Path.basename (node_key service)) name
  | None => false
  end.

End WithCodec.
End Reload.

Module OptionsRun.
Section WithWorld.

Context {W : Type} `{!World W}.

(** The value the callback of [_getServiceOptions] hands to
    [JsonUtils.parse], when the answer gets past
    [error || !body || !body.node]. *)
Definition answer_value (res : Response) : option (option string) :=
  match err res, body res with
  | None, Some {| node := Some n |} => Some (node_value n)
  | _, _ => None
  end.

(** The world after [n] failed reads of [key], each followed by the wait
    the code schedules. *)
Fixpoint world_after (n : nat) (key : string) (maxRetries : Z) (w : W) : W :=
  match n with
  | O => w
  | S m =>
      world_after m key (maxRetries - 1)
        (timer_wait ((Registry.MAX_RETRIES - maxRetries) * 500)
           (snd (etcd_get key false w)))
  end.

(** The events an options lookup may add: reads of [key], timers, and the
    mark of an exception that escaped the callback. *)
Definition allowed (key : string) (e : Event) : bool :=
  match e with
  | EGet k => String.eqb k key
  | ESetTimeout _ => true
  | EUncaught => true
  | _ => false
  end.

End WithWorld.
End OptionsRun.

(** What the reference store holds under a directory. *)
Module StoreShape.

(** [k] lies strictly below [dir]. *)
Definition is_under (dir k : list string) : bool :=
  match EtcdModel.strip dir k with
  | Some (_ :: _) => true
  | _ => false
  end.

(** The entries below [dir], expired or not. *)
Definition under (dir : list string) (l : list (list string * EtcdModel.Entry))
    : list (list string * EtcdModel.Entry) :=
  List.filter (fun '(k, _) => is_under dir k) l.

(** Nothing is stored at [dir] or below it. *)
Definition clear_of (dir : list string) (w : EtcdModel.t) : bool :=
  forallb (fun '(k, _) =>
             match EtcdModel.strip dir k with
             | None => true
             | Some _ => false
             end) (EtcdModel.entries w).

(** A record written with lease [ttl] is still there [d] ms later. *)
Definition outlasts (ttl : option Z) (d : Z) : bool :=
  match ttl with
  | None => true
  | Some t => d <? 1000 * t
  end.

End StoreShape.

(** Modelled from the spec: a store that is unavailable for a while
    ("the backing store is unreachable or returns an error on a given
    attempt"): the reference store behind a client that answers the next
    [n] reads with an error and every read after them from the store. *)
Module FlakyStore.

Definition t : Type := nat * EtcdModel.t.

Definition refused : Response :=
  {| err := Some "connect ECONNREFUSED"; body := None |}.

Definition read (depth : nat) (key : string) (w : t) : Response * t :=
  match w with
  | (O, store) => (EtcdModel.read depth key store, (O, store))
  | (S n, store) => (refused, (n, store))
  end.

#[export] Instance world : World t := {|
  etcd_set := fun key value opts w => (fst w, EtcdModel.write key value opts (snd w));
  etcd_getSync := fun key w => read 8 key w;
  etcd_get := fun key recursive w => read (if recursive then 8%nat else 1%nat) key w;
  Random_uuid := fun w =>
    (fst (EtcdModel.fresh_uuid (snd w)), (fst w, snd (EtcdModel.fresh_uuid (snd w))));
  timer_wait := fun ms w => (fst w, EtcdModel.wait ms (snd w))
|}.

(** The same registry, its store refusing the next [n] reads. *)
Definition refusing (n : nat) (r : Registry.t EtcdModel.t) : Registry.t t :=
  {| Registry._etcd := (n, Registry._etcd r);
     Registry._options := Registry._options r;
     Registry._services := Registry._services r;
     Registry.trace := Registry.trace r |}.

End FlakyStore.

(** More scenarios: answers to a reload, and a registry facing an outage. *)
Module Outage.

#[local] Existing Instances EtcdModel.world EtcdModel.json_service EtcdModel.json_blob.

(** A directory of [services] as a recursive read lists it. *)
Definition directory (name : string) (values : list string) : EtcdNode :=
  Node ("/services/" +:+ name) None
    (Some (List.map (fun v => Node ("/services/" +:+ name +:+ "/x") (Some v) None) values)).

Definition good_a : EtcdNode := directory "a" ["a1|a|conn"].
Definition good_b : EtcdNode := directory "b" ["b1|b|conn"; "b2|b|conn"].
Definition good_b_later : EtcdNode := directory "b" ["b3|b|conn"].
Definition bad_c : EtcdNode := directory "c" ["garbage"].

Definition record (id name : string) : ServiceDefinition :=
  {| ServiceDefinition.id := id; ServiceDefinition.name := name;
     ServiceDefinition.connection := "conn"; ServiceDefinition.options := None |}.


(** The registered scenario, the store refusing the next two reads. *)
Definition two_refusals : Registry.t FlakyStore.t :=
  FlakyStore.refusing 2 Scenario.registered.

End Outage.

(* ===================================================================== *)
(** ** Facts about the lookup path *)
(* ===================================================================== *)

Section LookupFacts.

Context {W : Type} `{!World W}.
Context `{!JsonUtils ServiceDefinition}.

Implicit Types (r : Registry.t W) (name key : string).

Lemma _getService_try_unfold name r :
  Registry._getService_try name r =
  match Lookup.cached (Registry._services r) name with
  | Some nodes => (Normal (Some nodes), r)
  | None =>
      (Lookup.read_outcome
         (fst (etcd_getSync (Path.join [SERVICES_KEY; name]) (Registry._etcd r))),
       Lookup.read_step (Path.join [SERVICES_KEY; name]) r)
  end.
Proof.
  unfold Registry._getService_try, Lookup.cached, Registry.bind,
    Registry.get_services, Lookup.read_step, Lookup.read_outcome,
    Registry.getSync, Registry.ret, Registry.throw, Registry.lift.
  destruct (Registry._services r !! name) as [[|n ns]|]; try reflexivity.
  all: destruct (etcd_getSync _ _) as [res w]; cbn [fst snd].
  all: destruct (err res); [reflexivity|].
  all: destruct (body res) as [[[[k v [[|s ss]|]]|]]|]; try reflexivity.
  all: destruct (Registry.parse_nodes (s :: ss)); reflexivity.
Qed.

Lemma cached_after_reads key k r :
  Registry._services (Lookup.after_reads key k r) = Registry._services r.
Proof. revert r; induction k as [|k IH]; intros r; simpl; [done|by rewrite IH]. Qed.

Lemma options_after_reads key k r :
  Registry._options (Lookup.after_reads key k r) = Registry._options r.
Proof. revert r; induction k as [|k IH]; intros r; simpl; [done|by rewrite IH]. Qed.

Lemma trace_after_reads key k r :
  Registry.trace (Lookup.after_reads key k r) =
  Registry.trace r ++ repeat (EGetSync key) k.
Proof.
  revert r; induction k as [|k IH]; intros r; simpl.
  - by rewrite app_nil_r.
  - rewrite IH. simpl. by rewrite <- app_assoc.
Qed.

Lemma after_reads_S key k r :
  Lookup.after_reads key (S k) r = Lookup.read_step key (Lookup.after_reads key k r).
Proof. revert r; induction k as [|k IH]; intros r; [done|]. simpl in *. by rewrite IH. Qed.

(** [_getService] follows the retry loop of the spec, with one attempt
    more than [maxRetries]. *)
Lemma _getService_retried maxRetries name r :
  Registry._getService maxRetries name r =
  match Lookup.cached (Registry._services r) name with
  | Some nodes => (Normal (Some nodes), r)
  | None => Lookup.retried_read (S maxRetries) (Path.join [SERVICES_KEY; name]) r
  end.
Proof.
  revert r. induction maxRetries as [|m IH]; intros r.
  - simpl. unfold Registry.try_catch. rewrite _getService_try_unfold.
    destruct (Lookup.cached _ _) eqn:Hc; [done|].
    destruct (Lookup.read_outcome _); done.
  - cbn [Registry._getService]. unfold Registry.try_catch.
    rewrite _getService_try_unfold.
    destruct (Lookup.cached (Registry._services r) name) eqn:Hc; [done|].
    cbn [Lookup.retried_read].
    destruct (Lookup.read_outcome _); [done|].
    rewrite IH. unfold Lookup.read_step at 1. simpl. by rewrite Hc.
Qed.

(** A run of the retry loop is a number of reads, never more than the
    attempts it was given, and it ends normally. *)
Lemma retried_read_run attempts key r :
  ∃ found k,
    Lookup.retried_read attempts key r = (Normal found, Lookup.after_reads key k r)
    ∧ (k ≤ attempts)%nat
    ∧ found ≠ Some []
    ∧ (found = None → k = attempts)
    ∧ (attempts ≠ 0 → k ≠ 0)%nat.
Proof.
  revert r. induction attempts as [|n IH]; intros r; simpl.
  - exists None, 0%nat. by repeat split.
  - destruct (Lookup.read_outcome _) as [found|e] eqn:Hout.
    + exists found, 1%nat. repeat split; [lia| | |lia].
      * intros ->. unfold Lookup.read_outcome in Hout.
        destruct (err _); [done|].
        destruct (body _) as [[[[k v [[|s ss]|]]|]]|]; try done.
        simpl in Hout.
        destruct (parse _); [|done].
        destruct (Registry.parse_nodes ss); done.
      * intros ->. unfold Lookup.read_outcome in Hout.
        destruct (err _); [done|].
        destruct (body _) as [[[[k v [[|s ss]|]]|]]|]; try done.
        destruct (Registry.parse_nodes _); done.
    + destruct (IH (Lookup.read_step key r)) as (found & k & Heq & Hk & Hne & Hn & _).
      exists found, (S k). rewrite Heq. repeat split; [lia|done| |lia].
      intros Hf. by rewrite (Hn Hf).
Qed.

Lemma retried_read_all_fail attempts key r :
  Lookup.next_reads Lookup.read_fails attempts key (Registry._etcd r) = true →
  Lookup.retried_read attempts key r = (Normal None, Lookup.after_reads key attempts r).
Proof.
  revert r. induction attempts as [|n IH]; intros r; simpl; [done|].
  intros [Hf Hrest]%andb_prop. unfold Lookup.read_fails in Hf.
  destruct (Lookup.read_outcome _); [done|].
  by apply IH.
Qed.

Lemma cached_nonempty (cache : gmap string (list ServiceDefinition)) name nodes :
  Lookup.cached cache name = Some nodes → nodes ≠ [].
Proof.
  unfold Lookup.cached. destruct (cache !! name) as [[|n ns]|]; [done| |done].
  by intros [= <-].
Qed.

(** Every [getService] is a run of at most six reads of the name's
    directory that ends normally, in [undefined] or in a list with a
    record. *)
Lemma getService_run name r :
  ∃ found k,
    Registry.getService name r =
      (Normal found, Lookup.after_reads (Path.join [SERVICES_KEY; name]) k r)
    ∧ (k ≤ 6)%nat
    ∧ found ≠ Some []
    ∧ (∀ nodes, Lookup.cached (Registry._services r) name = Some nodes →
         found = Some nodes ∧ k = 0%nat)
    ∧ (Lookup.cached (Registry._services r) name = None → (1 ≤ k)%nat).
Proof.
  unfold Registry.getService. rewrite _getService_retried.
  destruct (Lookup.cached _ _) as [nodes|] eqn:Hc.
  - exists (Some nodes), 0%nat. split_and!; [done|lia| | |done].
    + intros [= ->]. by apply cached_nonempty in Hc.
    + by intros ? [= <-].
  - destruct (retried_read_run 6 (Path.join [SERVICES_KEY; name]) r)
      as (found & k & Heq & Hk & Hne & _ & Hpos).
    exists found, k. split_and!; [done|done|done|done|].
    intros _. assert (k ≠ 0%nat) by (by apply Hpos). lia.
Qed.

(** What is shown about the lookup and about [renew] holds in both
    revisions: the functions are the same. *)
Lemma inline_revision_shares_lookup :
  InlineOptions.getService (W := W) = Registry.getService
  ∧ InlineOptions.renew (W := W) = Registry.renew
  ∧ InlineOptions._saveService (W := W) = Registry._saveService.
Proof. split_and!; reflexivity. Qed.

Lemma find_none_of_no_match (id : JsValue) (nodes : list ServiceDefinition) :
  (∀ node, In node nodes → strict_eq (ServiceDefinition.id node) id = false) →
  List.find (fun node => strict_eq (ServiceDefinition.id node) id) nodes = None.
Proof.
  induction nodes as [|n ns IH]; intros Hno; simpl; [done|].
  rewrite (Hno n) by (by left). apply IH. intros node Hin. apply Hno. by right.
Qed.

(** C2: [getService] follows the resolution order: a cached list with at
    least one record is returned at once and the store is not contacted;
    otherwise the name's directory is read from the store, up to six
    times; when all six reads fail to produce records the call returns
    [undefined], normally. *)
Theorem C2_getService_resolution_order name r :
  let key := Path.join [SERVICES_KEY; name] in
  Registry.getService name r = Lookup.resolution_order name r
  ∧ (∀ nodes, Lookup.cached (Registry._services r) name = Some nodes →
       Registry.getService name r = (Normal (Some nodes), r))
  ∧ (Lookup.cached (Registry._services r) name = None →
       ∃ found k, Registry.getService name r = (Normal found, Lookup.after_reads key k r)
                  ∧ (1 ≤ k ≤ 6)%nat)
  ∧ (Lookup.cached (Registry._services r) name = None →
       Lookup.next_reads Lookup.read_fails 6 key (Registry._etcd r) = true →
       Registry.getService name r = (Normal None, Lookup.after_reads key 6 r)).
Proof.
  intros key. unfold Registry.getService, Lookup.resolution_order.
  rewrite _getService_retried. split; [done|].
  split; [by intros nodes ->|]. split.
  - intros ->.
    destruct (retried_read_run 6 key r) as (found & k & Heq & Hk & _ & _ & Hpos).
    exists found, k. split; [done|].
    assert (k ≠ 0%nat) by (by apply Hpos). lia.
  - intros -> Hfail. by apply retried_read_all_fail.
Qed.

(** C8: [getService] never returns an empty list: it returns normally,
    either [undefined] or a list with at least one record; an empty list
    in the cache is not returned, and when no read finds a record the
    result is [undefined]. *)
Theorem C8_getService_never_empty name r :
  (∃ r', Registry.getService name r = (Normal None, r')
         ∨ ∃ n ns, Registry.getService name r = (Normal (Some (n :: ns)), r'))
  ∧ (Registry._services r !! name = Some [] ∨ Registry._services r !! name = None →
     Lookup.next_reads Lookup.read_fails 6 (Path.join [SERVICES_KEY; name])
       (Registry._etcd r) = true →
     fst (Registry.getService name r) = Normal None).
Proof.
  split.
  - destruct (getService_run name r) as (found & k & Heq & _ & Hne & _).
    exists (Lookup.after_reads (Path.join [SERVICES_KEY; name]) k r).
    rewrite Heq. destruct found as [[|n ns]|]; [done| |by left].
    right. by exists n, ns.
  - intros Hcache Hfail.
    assert (Lookup.cached (Registry._services r) name = None) as Hc.
    { unfold Lookup.cached. by destruct Hcache as [-> | ->]. }
    unfold Registry.getService. rewrite _getService_retried, Hc.
    by rewrite retried_read_all_fail.
Qed.

(** C3: when no record of the current record set of [name] has the id
    (or the name resolves to no records), [renew] returns normally, makes
    no write, and leaves cache, options and store as the lookup left
    them: all it did was read. *)
Theorem C3_renew_unknown_is_noop name (id : JsValue) r :
  (∀ nodes node,
      fst (Registry.getService name r) = Normal (Some nodes) →
      In node nodes → strict_eq (ServiceDefinition.id node) id = false) →
  ∃ r' k,
    Registry.renew name id r = (Normal tt, r')
    ∧ r' = Lookup.after_reads (Path.join [SERVICES_KEY; name]) k r
    ∧ (k ≤ 6)%nat
    ∧ Registry.trace r' =
        Registry.trace r ++ repeat (EGetSync (Path.join [SERVICES_KEY; name])) k
    ∧ List.filter is_write (Lookup.events_since r r') = []
    ∧ Registry._services r' = Registry._services r
    ∧ Registry._options r' = Registry._options r.
Proof.
  intros Hno.
  destruct (getService_run name r) as (found & k & Heq & Hk & _).
  exists (Lookup.after_reads (Path.join [SERVICES_KEY; name]) k r), k.
  rewrite Heq in Hno. cbn [fst] in Hno.
  split.
  - unfold Registry.renew, Registry.bind. rewrite Heq.
    destruct found as [nodes|]; [|done].
    rewrite find_none_of_no_match; [done|]. intros node. by apply Hno.
  - split_and!; [done|done|apply trace_after_reads| |apply cached_after_reads
                 |apply options_after_reads].
    unfold Lookup.events_since. rewrite trace_after_reads, drop_app_length.
    clear. induction k as [|k IH]; [done|]. simpl. exact IH.
Qed.

(** When the current record set of [name] has a record with the id,
    [renew] makes exactly one write: the record that was found, as it
    was read, serialized whole, under the key made of its own name and
    id, with whatever the [ttl] option of the registry holds as its
    lease. *)
Lemma renew_rewrites_found_record name (id : JsValue) r nodes node :
  fst (Registry.getService name r) = Normal (Some nodes) →
  List.find (fun n => strict_eq (ServiceDefinition.id n) id) nodes = Some node →
  let r1 := snd (Registry.getService name r) in
  let key := Path.join [SERVICES_KEY; ServiceDefinition.name node;
                        ServiceDefinition.id node] in
  let opts := {| maxRetries := 3; ttl := Registry._options r !! "ttl" |} in
  In node nodes
  ∧ strict_eq (ServiceDefinition.id node) id = true
  ∧ Registry.renew name id r =
      (Normal tt,
       Registry.log (ESet key (stringify node) opts)
         (Registry.with_etcd
            (etcd_set key (stringify node) opts (Registry._etcd r1)) r1))
  ∧ Lookup.events_since r1 (snd (Registry.renew name id r)) =
      [ESet key (stringify node) opts]
  ∧ Registry.renew name id r = Registry._saveService node r1.
Proof.
  intros Hget Hfind r1 key opts.
  destruct (find_some _ _ Hfind) as [Hin Hid].
  destruct (getService_run name r) as (found & k & Heq & _).
  assert (Registry._options r1 = Registry._options r) as Hopts.
  { subst r1. rewrite Heq. apply options_after_reads. }
  assert (Registry.renew name id r = Registry._saveService node r1) as Hrenew.
  { unfold Registry.renew, Registry.bind. subst r1.
    destruct (Registry.getService name r) as [c r1]. cbn [fst snd] in *.
    subst c. by rewrite Hfind. }
  assert (Registry._saveService node r1 =
          (Normal tt,
           Registry.log (ESet key (stringify node) opts)
             (Registry.with_etcd
                (etcd_set key (stringify node) opts (Registry._etcd r1)) r1)))
    as Hsave.
  { unfold Registry._saveService, Registry.bind, Registry.get_options,
      Registry.set. by rewrite Hopts. }
  split_and!; [done|done|by rewrite Hrenew| |done].
  rewrite Hrenew, Hsave. unfold Lookup.events_since. cbn [snd].
  unfold Registry.log. cbn [Registry.trace Registry.with_etcd].
  by rewrite drop_app_length.
Qed.

(** C6, what the code does on a registry built with no [ttl] option: the
    field [ttl] that [_saveService] reads is undefined there (the default
    went to [tll]), and a [renew] that finds the record writes exactly
    that record back, whole and under the key of its own name and id,
    but with no ttl: the write carries no fresh lease. *)
Theorem C6_renew_without_ttl_option_writes_no_lease
    (hosts : W) (options : gmap string Z) name (id : JsValue) r nodes node :
  options !! "ttl" = None →
  Registry._options r = Registry._options (Registry.constructor hosts options) →
  fst (Registry.getService name r) = Normal (Some nodes) →
  List.find (fun n => strict_eq (ServiceDefinition.id n) id) nodes = Some node →
  let r1 := snd (Registry.getService name r) in
  let key := Path.join [SERVICES_KEY; ServiceDefinition.name node;
                        ServiceDefinition.id node] in
  Registry._options r !! "ttl" = None
  ∧ In node nodes
  ∧ strict_eq (ServiceDefinition.id node) id = true
  ∧ Lookup.events_since r1 (snd (Registry.renew name id r)) =
      [ESet key (stringify node) {| maxRetries := 3; ttl := None |}].
Proof.
  intros Hnone Hopts Hget Hfind r1 key.
  assert (Registry._options r !! "ttl" = None) as Httl.
  { rewrite Hopts. cbn. by rewrite lookup_insert_ne. }
  destruct (renew_rewrites_found_record name id r nodes node Hget Hfind)
    as (Hin & Hid & _ & Hevents & _).
  split_and!; [done|done|done|].
  fold r1 key in Hevents. by rewrite Hevents, Httl.
Qed.

(** C9: [getServiceNode] returns normally: the first record of the list
    [getService] returns when that is a list with a record, and
    [undefined] when [getService] returns [undefined] (an empty list, on
    which it would also answer [undefined], is never handed to it). *)
Theorem C9_getServiceNode_first_or_undefined name r :
  ∃ found r',
    InlineOptions.getService name r = (Normal found, r')
    ∧ InlineOptions.getServiceNode name r =
        (Normal (match found with
                 | Some nodes => head nodes
                 | None => None
                 end), r')
    ∧ (found = None ∨ ∃ n ns, found = Some (n :: ns)).
Proof.
  destruct (getService_run name r) as (found & k & Heq & _ & Hne & _).
  exists found, (Lookup.after_reads (Path.join [SERVICES_KEY; name]) k r).
  unfold InlineOptions.getServiceNode, InlineOptions.getService, Registry.bind.
  rewrite Heq. split; [done|]. split.
  - by destruct found as [[|n ns]|].
  - destruct found as [[|n ns]|]; [done| |by left]. right. by exists n, ns.
Qed.

Lemma next_reads_weaken (bad bad' : Response → bool) n key (w : W) :
  (∀ res, bad res = true → bad' res = true) →
  Lookup.next_reads bad n key w = true → Lookup.next_reads bad' n key w = true.
Proof.
  intros Himp. revert w. induction n as [|n IH]; intros w; simpl; [done|].
  intros [Hb Hn]%andb_prop. rewrite (Himp _ Hb). by apply IH.
Qed.

Lemma read_malformed_fails res :
  Lookup.read_malformed res = true → Lookup.read_fails res = true.
Proof.
  unfold Lookup.read_malformed, Lookup.read_fails, Lookup.read_outcome.
  destruct (err res); [done|].
  destruct (body res) as [[[[k v [[|s ss]|]]|]]|]; try done.
  by destruct (Registry.parse_nodes (s :: ss)).
Qed.

(** C5, as the code has it: a stored value that does not deserialize
    makes the read fail like any other failed read: the read is made
    again, a later good read still answers, and when the value is still
    malformed on the sixth read [getService] returns [undefined], the
    outcome of not found; the records of that read that do parse are not
    returned either. *)
Theorem C5_malformed_record_is_retried name r :
  let key := Path.join [SERVICES_KEY; name] in
  Lookup.cached (Registry._services r) name = None →
  (Lookup.read_malformed (fst (etcd_getSync key (Registry._etcd r))) = true →
     Registry.getService name r =
       Lookup.retried_read 5 key (Lookup.read_step key r))
  ∧ (Lookup.next_reads Lookup.read_malformed 6 key (Registry._etcd r) = true →
     Registry.getService name r = (Normal None, Lookup.after_reads key 6 r)).
Proof.
  intros key Hc. unfold Registry.getService. rewrite _getService_retried, Hc.
  split.
  - intros Hbad%read_malformed_fails. unfold Lookup.read_fails in Hbad.
    cbn [Lookup.retried_read]. fold key.
    by destruct (Lookup.read_outcome _).
  - intros Hall. apply retried_read_all_fail.
    eapply next_reads_weaken; [|exact Hall]. apply read_malformed_fails.
Qed.

End LookupFacts.

(* ===================================================================== *)
(** ** Facts about the write path and about [getServiceOptions] *)
(* ===================================================================== *)

Section WriteFacts.

Context {W : Type} `{!World W}.
Context `{!JsonUtils ServiceDefinition} `{!JsonUtils Blob}.

Implicit Types (r : Registry.t W) (name key : string).

Lemma events_since_app r r' events :
  Registry.trace r' = Registry.trace r ++ events →
  Lookup.events_since r r' = events.
Proof. intros Heq. unfold Lookup.events_since. by rewrite Heq, drop_app_length. Qed.

(** What [register] does, call by call. *)
Lemma register_unfold name (connection options : Blob) r :
  let u := fst (Random_uuid (Registry._etcd r)) in
  let w0 := snd (Random_uuid (Registry._etcd r)) in
  let service := {| ServiceDefinition.id := u;
                    ServiceDefinition.name := name;
                    ServiceDefinition.connection := connection;
                    ServiceDefinition.options := None |} in
  let key := Path.join [SERVICES_KEY; name; u] in
  let okey := Path.join [SERVICES_OPTIONS_KEY; name] in
  let ropts := {| maxRetries := 3; ttl := Registry._options r !! "ttl" |} in
  let oopts := {| maxRetries := 3; ttl := None |} in
  Registry.register name connection options r =
    (Normal u,
     {| Registry._etcd :=
          etcd_set okey (stringify options) oopts
            (etcd_set key (stringify service) ropts w0);
        Registry._options := Registry._options r;
        Registry._services := Registry._services r;
        Registry.trace :=
          Registry.trace r ++ [ESet key (stringify service) ropts;
                               ESet okey (stringify options) oopts] |}).
Proof.
  unfold Registry.register, Registry.bind, Registry.uuid, Registry._saveService,
    Registry._saveServiceOptions, Registry.get_options, Registry.set,
    Registry.ret, Registry.log, Registry.with_etcd.
  destruct (Random_uuid (Registry._etcd r)) as [u w0]. cbn.
  by rewrite <- app_assoc.
Qed.

(** C1, what the code does with no [ttl] option: the constructor stores
    the default of 120 under the misspelt field [tll], the field [ttl]
    that [_saveService] reads stays undefined, and the record write of
    [register] carries no ttl, not 120. *)
Theorem C1_default_ttl_not_applied (hosts : W) (options : gmap string Z)
    name (connection opts : Blob) :
  options !! "ttl" = None →
  let r0 := Registry.constructor hosts options in
  let u := fst (Random_uuid hosts) in
  let service := {| ServiceDefinition.id := u;
                    ServiceDefinition.name := name;
                    ServiceDefinition.connection := connection;
                    ServiceDefinition.options := None |} in
  Registry._options r0 !! "tll" = Some TTL_SECONDS
  ∧ Registry._options r0 !! "ttl" = None
  ∧ List.filter is_write
      (Lookup.events_since r0 (snd (Registry.register name connection opts r0))) =
    [ESet (Path.join [SERVICES_KEY; name; u]) (stringify service)
       {| maxRetries := 3; ttl := None |};
     ESet (Path.join [SERVICES_OPTIONS_KEY; name]) (stringify opts)
       {| maxRetries := 3; ttl := None |}].
Proof.
  intros Hnone r0 u service.
  assert (Registry._options r0 !! "ttl" = None) as Httl.
  { subst r0. cbn. by rewrite lookup_insert_ne. }
  split_and!; [|done|].
  - subst r0. cbn. rewrite lookup_insert_eq, Hnone. done.
  - erewrite events_since_app by (rewrite register_unfold; reflexivity).
    rewrite Httl. reflexivity.
Qed.

Lemma _getServiceOptions_inner_failing fuel name maxRetries (p : Promise Blob) r :
  let key := Path.join [SERVICES_OPTIONS_KEY; name] in
  Lookup.options_reads_fail fuel key maxRetries (Registry._etcd r) = true →
  fst (Registry._getServiceOptions_inner fuel name maxRetries p r) =
    Lookup.settled fuel maxRetries p
  ∧ Registry.trace (snd (Registry._getServiceOptions_inner fuel name maxRetries p r)) =
    Registry.trace r ++ Lookup.failed_attempts fuel key maxRetries.
Proof.
  intros key. revert maxRetries p r.
  induction fuel as [|fuel IH]; intros maxRetries p r; simpl.
  - intros _. by rewrite app_nil_r.
  - fold key. unfold Registry.get.
    destruct (etcd_get key false (Registry._etcd r)) as [res w] eqn:Hget.
    cbn [fst snd]. intros [Hf Hrest]%andb_prop.
    unfold Lookup.get_fails in Hf.
    destruct (err res) eqn:Herr.
    + destruct (IH (maxRetries - 1)
                  (if maxRetries <=? 0 then resolve None p else p)
                  (Registry.setTimeout ((Registry.MAX_RETRIES - maxRetries) * 500)
                     (Registry.log (EGet key) (Registry.with_etcd w r))) Hrest)
        as [Hp Ht].
      rewrite Hp, Ht. split; [done|]. cbn. by rewrite <- !app_assoc.
    + destruct (body res) as [[[n|]]|] eqn:Hbody; [done| |].
      all: destruct (IH (maxRetries - 1)
                  (if maxRetries <=? 0 then resolve None p else p)
                  (Registry.setTimeout ((Registry.MAX_RETRIES - maxRetries) * 500)
                     (Registry.log (EGet key) (Registry.with_etcd w r))) Hrest)
        as [Hp Ht].
      all: rewrite Hp, Ht; split; [done|]; cbn; by rewrite <- !app_assoc.
Qed.

(** A settled promise stays as it is, whatever the later reads bring. *)
Lemma _getServiceOptions_inner_settled fuel name maxRetries (v : option Blob) r :
  fst (Registry._getServiceOptions_inner fuel name maxRetries (Resolved v) r) =
  Resolved v.
Proof.
  revert maxRetries r. induction fuel as [|fuel IH]; intros maxRetries r; [done|].
  cbn [Registry._getServiceOptions_inner]. unfold Registry.get.
  destruct (etcd_get _ false (Registry._etcd r)) as [res w].
  destruct (err res).
  { destruct (maxRetries <=? 0); apply IH. }
  destruct (body res) as [[[n|]]|].
  - by destruct (parse (node_value n)).
  - destruct (maxRetries <=? 0); apply IH.
  - destruct (maxRetries <=? 0); apply IH.
Qed.

(** Once [n] failed reads have settled the promise, more fuel does not
    change it. *)
Lemma _getServiceOptions_inner_settles n extra name maxRetries
    (p : Promise Blob) (v : option Blob) r :
  Lookup.options_reads_fail n (Path.join [SERVICES_OPTIONS_KEY; name]) maxRetries
    (Registry._etcd r) = true →
  Lookup.settled n maxRetries p = Resolved v →
  fst (Registry._getServiceOptions_inner (n + extra) name maxRetries p r) = Resolved v.
Proof.
  revert maxRetries p r. induction n as [|n IH]; intros maxRetries p r.
  - intros _. simpl. intros ->. apply _getServiceOptions_inner_settled.
  - cbn [Lookup.options_reads_fail Lookup.settled Nat.add
           Registry._getServiceOptions_inner].
    unfold Registry.get.
    destruct (etcd_get _ false (Registry._etcd r)) as [res w]. cbn [fst snd].
    intros [Hf Hrest]%andb_prop Hset. unfold Lookup.get_fails in Hf.
    destruct (err res).
    { by apply IH. }
    destruct (body res) as [[[nd|]]|]; [done| |]; by apply IH.
Qed.

Lemma options_reads_fail_le n m key maxRetries (w : W) :
  (n ≤ m)%nat →
  Lookup.options_reads_fail m key maxRetries w = true →
  Lookup.options_reads_fail n key maxRetries w = true.
Proof.
  revert m maxRetries w. induction n as [|n IH]; intros m maxRetries w Hle; [done|].
  destruct m as [|m]; [lia|]. simpl. intros [Hf Hrest]%andb_prop.
  rewrite Hf. cbn [andb]. apply (IH m); [lia|done].
Qed.

Lemma settled_pending_upto_10 (fuel : nat) :
  (fuel ≤ 10)%nat → Lookup.settled fuel Registry.MAX_RETRIES (@Pending Blob) = Pending.
Proof.
  intros Hle. do 11 (destruct fuel as [|fuel]; [reflexivity|]). lia.
Qed.

(** While reads keep failing the inner function keeps re-arming itself:
    there is one read for every unit of fuel, also past the read that
    settles the promise. *)
Lemma getServiceOptions_polls_while_failing fuel name r :
  let key := Path.join [SERVICES_OPTIONS_KEY; name] in
  Lookup.options_reads_fail fuel key Registry.MAX_RETRIES (Registry._etcd r) = true →
  length (List.filter is_read
            (Lookup.events_since r (snd (Registry.getServiceOptions fuel name r)))) = fuel.
Proof.
  intros key Hfail.
  destruct (_getServiceOptions_inner_failing fuel name Registry.MAX_RETRIES Pending r Hfail)
    as [_ Ht].
  erewrite events_since_app by exact Ht. fold key.
  generalize Registry.MAX_RETRIES. clear.
  induction fuel as [|fuel IH]; intros m; [done|]. simpl. by rewrite IH.
Qed.

(** C4, as the code has it: [getService] makes at most six reads, one
    after the other with no delay in between, and then returns; the
    promise of [getServiceOptions] is still pending after ten failed
    reads, which are followed by delays of 0, 500, ..., 4500 ms, and is
    resolved to [undefined] when the eleventh read fails, to stay so. *)
Theorem C4_retry_budget name r :
  let skey := Path.join [SERVICES_KEY; name] in
  let okey := Path.join [SERVICES_OPTIONS_KEY; name] in
  (∃ found k,
      Registry.getService name r = (Normal found, Lookup.after_reads skey k r)
      ∧ (k ≤ 6)%nat
      ∧ Lookup.events_since r (snd (Registry.getService name r)) =
          repeat (EGetSync skey) k
      ∧ List.filter is_delay
          (Lookup.events_since r (snd (Registry.getService name r))) = [])
  ∧ (Lookup.options_reads_fail 11 okey Registry.MAX_RETRIES (Registry._etcd r) = true →
     (∀ fuel, (11 ≤ fuel)%nat →
          fst (Registry.getServiceOptions fuel name r) = Resolved None)
     ∧ (∀ fuel, (fuel ≤ 10)%nat →
          fst (Registry.getServiceOptions fuel name r) = Pending)
     ∧ Lookup.events_since r (snd (Registry.getServiceOptions 10 name r)) =
         Lookup.failed_attempts 10 okey Registry.MAX_RETRIES
     ∧ List.filter is_delay
         (Lookup.events_since r (snd (Registry.getServiceOptions 10 name r))) =
         List.map ESetTimeout
           [0; 500; 1000; 1500; 2000; 2500; 3000; 3500; 4000; 4500]).
Proof.
  intros skey okey. split.
  - destruct (getService_run name r) as (found & k & Heq & Hk & _).
    exists found, k. fold skey in Heq. rewrite Heq. cbn [snd].
    erewrite events_since_app by apply trace_after_reads.
    split_and!; [done|done|done|].
    clear. induction k as [|k IH]; [done|]. simpl. exact IH.
  - intros Hfail. unfold Registry.getServiceOptions, Registry._getServiceOptions.
    assert (∀ fuel, (fuel ≤ 11)%nat →
              fst (Registry._getServiceOptions_inner fuel name Registry.MAX_RETRIES
                     Pending r) = Lookup.settled fuel Registry.MAX_RETRIES Pending
              ∧ Registry.trace
                  (snd (Registry._getServiceOptions_inner fuel name
                          Registry.MAX_RETRIES Pending r)) =
                Registry.trace r ++ Lookup.failed_attempts fuel okey Registry.MAX_RETRIES)
      as Hrun.
    { intros fuel Hle. apply _getServiceOptions_inner_failing.
      by apply (options_reads_fail_le fuel 11). }
    split_and!.
    + intros fuel Hle. replace fuel with (11 + (fuel - 11))%nat by lia.
      by apply _getServiceOptions_inner_settles.
    + intros fuel Hle. destruct (Hrun fuel) as [-> _]; [lia|].
      by apply settled_pending_upto_10.
    + destruct (Hrun 10%nat) as [_ Ht]; [lia|]. by apply events_since_app.
    + destruct (Hrun 10%nat) as [_ Ht]; [lia|].
      erewrite events_since_app by exact Ht. reflexivity.
Qed.

End WriteFacts.

(* ===================================================================== *)
(** ** Facts about [path.join] on ordinary segments *)
(* ===================================================================== *)

Section PathFacts.

Implicit Types (s a b : string) (segs : list string).

Lemma plain_segment_inv s :
  Path.plain_segment s = true →
  Path.no_sep s = true ∧ s ≠ EmptyString ∧ s ≠ "." ∧ s ≠ "..".
Proof.
  unfold Path.plain_segment, Path.nonempty.
  intros H. repeat (apply andb_prop in H as [H ?]).
  split_and!; [done|..]; intros ->; done.
Qed.

Lemma split_no_sep s : Path.no_sep s = true → Path.split s = [s].
Proof.
  unfold Path.split. induction s as [|c s IH]; simpl; [done|].
  destruct (Ascii.eqb c Path.sep); [done|]. simpl. intros Hs. by rewrite IH.
Qed.

Lemma split_app_sep a rest :
  Path.no_sep a = true →
  Path.split (a +:+ "/" +:+ rest) = a :: Path.split rest.
Proof.
  unfold Path.split. induction a as [|c a IH]; simpl; [done|].
  destruct (Ascii.eqb c Path.sep); [done|]. simpl. intros Hs. by rewrite IH.
Qed.

Lemma concat_cons2 sep a b segs :
  String.concat sep (a :: b :: segs) = a +:+ sep +:+ String.concat sep (b :: segs).
Proof. reflexivity. Qed.

Lemma split_concat segs :
  segs ≠ [] → Forall (λ s, Path.no_sep s = true) segs →
  Path.split (String.concat "/" segs) = segs.
Proof.
  induction segs as [|a [|b segs] IH]; intros Hne Hall; [done|..].
  - simpl. apply split_no_sep. by inversion Hall.
  - rewrite concat_cons2. inversion Hall as [|? ? Ha Hrest]; subst.
    rewrite split_app_sep by done. by rewrite IH.
Qed.

Lemma push_plain allow res s :
  Path.plain_segment s = true → Path.push_segment allow res s = s :: res.
Proof.
  intros (_ & H1 & H2 & H3)%plain_segment_inv. unfold Path.push_segment.
  rewrite (proj2 (String.eqb_neq s EmptyString)), (proj2 (String.eqb_neq s ".")),
    (proj2 (String.eqb_neq s "..")) by done.
  reflexivity.
Qed.

Lemma fold_push_plain allow segs res :
  Forall (λ s, Path.plain_segment s = true) segs →
  fold_left (Path.push_segment allow) segs res = rev segs ++ res.
Proof.
  revert res. induction segs as [|s segs IH]; intros res Hall; [done|].
  inversion Hall; subst. simpl. rewrite push_plain by done.
  rewrite IH by done. by rewrite <- app_assoc.
Qed.

Lemma concat_head a segs :
  a ≠ EmptyString → ∃ c rest, String.concat "/" (a :: segs) = String c rest
                     ∧ Path.starts_with_sep (String c rest) = Path.starts_with_sep a.
Proof.
  intros Hne. destruct a as [|c a]; [done|].
  destruct segs as [|b segs]; [by exists c, a|].
  rewrite concat_cons2. simpl. eauto.
Qed.

Lemma starts_with_sep_no_sep s : Path.no_sep s = true → Path.starts_with_sep s = false.
Proof.
  destruct s as [|c s]; [done|]. simpl. by destruct (Ascii.eqb c Path.sep).
Qed.

Lemma ends_with_sep_no_sep s : Path.no_sep s = true → Path.ends_with_sep s = false.
Proof.
  induction s as [|c s IH]; [done|]. simpl.
  destruct (Ascii.eqb c Path.sep); [done|]. simpl. intros Hs.
  destruct s; [done|]. by apply IH.
Qed.

Lemma ends_with_sep_app a b :
  b ≠ EmptyString → Path.ends_with_sep (a +:+ b) = Path.ends_with_sep b.
Proof.
  intros Hb. induction a as [|c a IH]; [done|].
  change (String c a +:+ b) with (String c (a +:+ b)).
  cbn [Path.ends_with_sep]. destruct (a +:+ b) eqn:Hab; [|done].
  destruct a; [|done]. simpl in Hab. by subst.
Qed.

Lemma ends_with_sep_concat segs :
  segs ≠ [] → Forall (λ s, Path.plain_segment s = true) segs →
  Path.ends_with_sep (String.concat "/" segs) = false.
Proof.
  induction segs as [|a [|b segs] IH]; intros Hne Hall; [done|..].
  - simpl. apply ends_with_sep_no_sep. inversion Hall; subst.
    by apply plain_segment_inv.
  - rewrite concat_cons2. inversion Hall as [|? ? Ha Hrest]; subst.
    rewrite ends_with_sep_app.
    + rewrite ends_with_sep_app; [by apply IH|].
      inversion Hrest as [|? ? Hb _]; subst.
      apply plain_segment_inv in Hb as (_ & Hb & _).
      destruct (concat_head b segs Hb) as (c & rest & -> & _). done.
    + done.
Qed.

(** On ordinary segments [path.join] is the segments with a slash in
    between. *)
Lemma join_plain segs :
  segs ≠ [] → Forall (λ s, Path.plain_segment s = true) segs →
  Path.join segs = String.concat "/" segs.
Proof.
  intros Hne Hall. unfold Path.join.
  assert (List.filter Path.nonempty segs = segs) as ->.
  { clear Hne. induction Hall as [|s segs Hs _ IH]; [done|]. simpl.
    apply plain_segment_inv in Hs as (_ & Hs & _).
    unfold Path.nonempty at 1. rewrite (proj2 (String.eqb_neq s EmptyString)) by done.
    simpl. by rewrite IH. }
  destruct segs as [|a segs]; [done|].
  assert (Forall (λ s, Path.no_sep s = true) (a :: segs)) as Hns.
  { eapply Forall_impl; [exact Hall|]. intros s Hs. by apply plain_segment_inv. }
  pose proof Hall as Hall'. inversion Hall' as [|? ? Ha _]; subst.
  apply plain_segment_inv in Ha as (Hsep & Ha & _).
  destruct (concat_head a segs Ha) as (c & rest & Hc & Hstart).
  unfold Path.normalize, Path.normalizeString.
  rewrite split_concat, fold_push_plain, app_nil_r, rev_involutive by done.
  rewrite ends_with_sep_concat by done.
  assert (Path.starts_with_sep (String.concat "/" (a :: segs)) = false) as ->.
  { by rewrite Hc, Hstart, starts_with_sep_no_sep. }
  assert ((String.concat "/" (a :: segs) =? EmptyString)%string = false) as ->.
  { by rewrite Hc. }
  reflexivity.
Qed.

End PathFacts.

(* ===================================================================== *)
(** ** The storage layout *)
(* ===================================================================== *)

Section LayoutFacts.

Context {W : Type} `{!World W}.
Context `{!JsonUtils ServiceDefinition} `{!JsonUtils Blob}.

(** C7, as the code has it: [register] writes the record under
    [path.join('services', name, id)] and the options under
    [path.join('services-options', name)]; when the name and the
    generated id are ordinary path segments these keys are
    [services/<name>/<id>] and [services-options/<name>]. *)
Theorem C7_storage_layout name (connection options : Blob) (r : Registry.t W) :
  let u := fst (Random_uuid (Registry._etcd r)) in
  let r' := snd (Registry.register name connection options r) in
  fst (Registry.register name connection options r) = Normal u
  ∧ omap Lookup.write_key (Lookup.events_since r r') =
      [Path.join [SERVICES_KEY; name; u]; Path.join [SERVICES_OPTIONS_KEY; name]]
  ∧ SERVICES_KEY = "services"
  ∧ SERVICES_OPTIONS_KEY = "services-options"
  ∧ (Path.plain_segment name = true → Path.plain_segment u = true →
     omap Lookup.write_key (Lookup.events_since r r') =
       ["services/" +:+ name +:+ "/" +:+ u; "services-options/" +:+ name]).
Proof.
  intros u r'.
  assert (omap Lookup.write_key (Lookup.events_since r r') =
          [Path.join [SERVICES_KEY; name; u];
           Path.join [SERVICES_OPTIONS_KEY; name]]) as Hkeys.
  { subst r'. erewrite events_since_app by (rewrite register_unfold; reflexivity).
    reflexivity. }
  split_and!; [by rewrite register_unfold|done|done|done|].
  intros Hname Hu. rewrite Hkeys.
  rewrite !join_plain; [done|done|..].
  - by repeat constructor.
  - done.
  - by repeat constructor.
Qed.

End LayoutFacts.

(* ===================================================================== *)
(** ** Facts about the reference world *)
(* ===================================================================== *)

Section EtcdModelFacts.

Local Existing Instance EtcdModel.world.
Context `{!JsonUtils ServiceDefinition} `{!JsonUtils Blob}.

Implicit Types (w : EtcdModel.t) (r : Registry.t EtcdModel.t).

Lemma segs_eqb_refl k : EtcdModel.segs_eqb k k = true.
Proof. induction k as [|s k IH]; [done|]. simpl. by rewrite String.eqb_refl. Qed.

Lemma find_entry_put k e l :
  EtcdModel.find_entry k (EtcdModel.put k e l) = Some e.
Proof.
  induction l as [|[k' e'] l IH]; simpl.
  - by rewrite segs_eqb_refl.
  - destruct (EtcdModel.segs_eqb k k') eqn:Heq; simpl.
    + by rewrite segs_eqb_refl.
    + by rewrite Heq.
Qed.

(** Reads leave the reference world as it is. *)
Lemma etcd_after_reads key k r :
  Registry._etcd (Lookup.after_reads key k r) = Registry._etcd r.
Proof. revert r. induction k as [|k IH]; intros r; [done|]. simpl. by rewrite IH. Qed.

Lemma next_reads_same (bad : Response → bool) n key w :
  bad (EtcdModel.read 8 key w) = true → Lookup.next_reads bad n key w = true.
Proof. intros Hbad. induction n as [|n IH]; [done|]. simpl. by rewrite Hbad, IH. Qed.

Lemma read_nothing_live depth key w :
  EtcdModel.nothing_live_under (EtcdModel.key_segments key) w = true →
  EtcdModel.read depth key w = EtcdModel.key_not_found.
Proof.
  unfold EtcdModel.nothing_live_under, EtcdModel.read.
  intros [Hleaf Hbelow]%andb_prop.
  destruct (EtcdModel.find_entry _ _) as [e|].
  - by destruct (EtcdModel.live _ e).
  - destruct depth as [|d]; [done|]. cbn [EtcdModel.children].
    by destruct (EtcdModel.below _ _ _).
Qed.

(** C10: the options write of [register] carries no ttl, so the options
    entry has no lease: however much time passes, [getServiceOptions]
    resolves to the stored options at its first read, also when no record
    of the name is live any more and [getService] returns [undefined].
    The name is an ordinary path segment, so that the options live at
    [services-options/<name>] and the records under [services/<name>]. *)
Theorem C10_options_outlive_records r name (connection opts opts' : Blob) (d : Z) :
  Path.plain_segment name = true →
  parse (Some (stringify opts)) = Some opts' →
  let okey := Path.join [SERVICES_OPTIONS_KEY; name] in
  let skey := Path.join [SERVICES_KEY; name] in
  let r1 := snd (Registry.register name connection opts r) in
  let r2 := EtcdModel.elapse d r1 in
  List.last (Registry.trace r1) EUncaught =
    ESet okey (stringify opts) {| maxRetries := 3; ttl := None |}
  ∧ EtcdModel.find_entry (EtcdModel.key_segments okey)
      (EtcdModel.entries (Registry._etcd r2)) =
    Some {| EtcdModel.e_value := stringify opts; EtcdModel.e_expires := None |}
  ∧ (∀ fuel, fst (Registry.getServiceOptions (S fuel) name r2) = Resolved (Some opts'))
  ∧ (Lookup.cached (Registry._services r2) name = None →
     EtcdModel.nothing_live_under (EtcdModel.key_segments skey) (Registry._etcd r2) = true →
     fst (Registry.getService name r2) = Normal None)
  ∧ okey = "services-options/" +:+ name
  ∧ skey = "services/" +:+ name.
Proof.
  intros Hname Hparse okey skey r1 r2.
  assert (EtcdModel.find_entry (EtcdModel.key_segments okey)
            (EtcdModel.entries (Registry._etcd r2)) =
          Some {| EtcdModel.e_value := stringify opts;
                  EtcdModel.e_expires := None |}) as Hentry.
  { subst r2 r1. rewrite register_unfold. cbn. apply find_entry_put. }
  split_and!.
  - assert (∃ e, Registry.trace r1 =
                   (Registry.trace r ++ [e]) ++
                   [ESet okey (stringify opts) {| maxRetries := 3; ttl := None |}])
      as [e ->].
    { subst r1. rewrite register_unfold. eexists. cbn [snd Registry.trace].
      rewrite <- app_assoc. reflexivity. }
    apply last_last.
  - exact Hentry.
  - intros fuel. unfold Registry.getServiceOptions, Registry._getServiceOptions.
    cbn [Registry._getServiceOptions_inner]. fold okey.
    unfold Registry.get. cbn [etcd_get EtcdModel.world].
    unfold EtcdModel.read. rewrite Hentry. cbn. by rewrite Hparse.
  - intros Hc Hdead. unfold Registry.getService.
    rewrite _getService_retried, Hc. fold skey.
    rewrite retried_read_all_fail; [done|].
    apply next_reads_same. by rewrite read_nothing_live.
  - subst okey. rewrite join_plain; [done|done|by repeat constructor].
  - subst skey. rewrite join_plain; [done|done|by repeat constructor].
Qed.

(** On the reference world a [renew] that finds no record with the id
    leaves the store exactly as it was. *)
Lemma renew_unknown_store_untouched name (id : JsValue) r :
  (∀ nodes node,
      fst (Registry.getService name r) = Normal (Some nodes) →
      In node nodes → strict_eq (ServiceDefinition.id node) id = false) →
  Registry._etcd (snd (Registry.renew name id r)) = Registry._etcd r.
Proof.
  intros Hno.
  destruct (getService_run name r) as (found & k & Heq & _).
  rewrite Heq in Hno. cbn [fst] in Hno.
  unfold Registry.renew, Registry.bind. rewrite Heq.
  destruct found as [nodes|]; cbn [snd]; [|apply etcd_after_reads].
  rewrite find_none_of_no_match by (intros node; by apply Hno).
  apply etcd_after_reads.
Qed.

End EtcdModelFacts.

(* ===================================================================== *)
(** ** Facts about the cache reload *)
(* ===================================================================== *)

Section ReloadFacts.

Context {W : Type} `{!World W}.
Context `{!JsonUtils ServiceDefinition}.

Implicit Types (r : Registry.t W) (name : string) (services : list EtcdNode).

Lemma cached_empty name :
  Lookup.cached (∅ : gmap string (list ServiceDefinition)) name = None.
Proof. unfold Lookup.cached. by rewrite lookup_empty. Qed.

Lemma _loadServices_each_frame services r :
  Registry._etcd (snd (Registry._loadServices_each services r)) = Registry._etcd r
  ∧ Registry._options (snd (Registry._loadServices_each services r)) = Registry._options r
  ∧ Registry.trace (snd (Registry._loadServices_each services r)) = Registry.trace r.
Proof.
  revert r. induction services as [|service rest IH]; intros r; [done|].
  cbn [Registry._loadServices_each].
  destruct (node_nodes service) as [ns|]; [|apply IH].
  destruct (Registry.parse_nodes ns); [|done].
  destruct (IH (Registry.with_services
                  (<[Path.basename (node_key service) := a]> (Registry._services r)) r))
    as (-> & -> & ->).
  done.
Qed.

Lemma _loadServices_callback_listing res services r :
  Reload.listing res = Some services →
  Registry._loadServices_callback res r = Registry._loadServices_each services r.
Proof.
  unfold Reload.listing, Registry._loadServices_callback.
  destruct (err res); [done|].
  destruct (body res) as [[[[k v [ss|]]|]]|]; try done.
  by intros [= ->].
Qed.

Lemma _loadServices_callback_no_listing res r :
  Reload.listing res = None →
  snd (Registry._loadServices_callback res r) = r.
Proof.
  unfold Reload.listing, Registry._loadServices_callback.
  destruct (err res); [done|].
  by destruct (body res) as [[[[k v [ss|]]|]]|].
Qed.

(** The callback of [_loadServices] changes nothing but the cache: it
    calls nothing and leaves the options alone, whatever the answer is and
    also when a value in it fails to deserialize. *)
Theorem reload_callback_touches_only_cache res r :
  let r' := snd (Registry._loadServices_callback res r) in
  Registry._etcd r' = Registry._etcd r
  ∧ Registry._options r' = Registry._options r
  ∧ Registry.trace r' = Registry.trace r.
Proof.
  intros r'. subst r'.
  destruct (Reload.listing res) as [services|] eqn:Hl.
  - rewrite (_loadServices_callback_listing _ _ _ Hl).
    apply _loadServices_each_frame.
  - by rewrite (_loadServices_callback_no_listing _ _ Hl).
Qed.

(** [_loadServices] empties the cache before the store has answered:
    until the callback runs no name is cached, also a name that was cached
    a moment ago, and a [getService] in that window goes to the store. *)
Theorem reload_window_serves_nothing_from_cache name r :
  Lookup.cached (Registry._services (Registry._loadServices r)) name = None
  ∧ Registry._etcd (Registry._loadServices r) = Registry._etcd r
  ∧ Registry.trace (Registry._loadServices r) = Registry.trace r ++ [EGet SERVICES_KEY]
  ∧ ∃ found k,
      Registry.getService name (Registry._loadServices r) =
        (Normal found,
         Lookup.after_reads (Path.join [SERVICES_KEY; name]) k (Registry._loadServices r))
      ∧ (1 ≤ k ≤ 6)%nat.
Proof.
  assert (Lookup.cached (Registry._services (Registry._loadServices r)) name = None)
    as Hmiss by apply cached_empty.
  split_and!; [done|done|done|].
  destruct (getService_run name (Registry._loadServices r))
    as (found & k & Heq & Hk & _ & _ & Hpos).
  exists found, k. split; [done|]. split; [by apply Hpos|done].
Qed.


Lemma _loadServices_each_app pre post r :
  forallb Reload.loads pre = true →
  Registry._loadServices_each (pre ++ post) r =
  Registry._loadServices_each post (snd (Registry._loadServices_each pre r))
  ∧ fst (Registry._loadServices_each pre r) = Normal tt.
Proof.
  revert r. induction pre as [|service pre IH]; intros r Hok; [done|].
  cbn [forallb] in Hok. apply andb_prop in Hok as [Hs Hrest].
  cbn [app Registry._loadServices_each]. unfold Reload.loads in Hs.
  destruct (node_nodes service) as [ns|]; [|by apply IH].
  destruct (Registry.parse_nodes ns); [|done]. by apply IH.
Qed.

(** A value that fails to deserialize stops the reload where it stands:
    the exception leaves the callback, the directories listed before it
    are in the cache, the ones listed after it are not looked at. *)
Theorem reload_stops_at_malformed_value pre bad post ns e r :
  forallb Reload.loads pre = true →
  node_nodes bad = Some ns →
  Registry.parse_nodes (A := ServiceDefinition) ns = Throw e →
  Registry._loadServices_each (pre ++ bad :: post) r =
    (Throw e, snd (Registry._loadServices_each pre r)).
Proof.
  intros Hpre Hbad Hparse.
  destruct (_loadServices_each_app pre (bad :: post) r Hpre) as [-> _].
  cbn [Registry._loadServices_each]. by rewrite Hbad, Hparse.
Qed.

Lemma _loadServices_each_other_names services name r :
  forallb (fun service => negb (Reload.stored_as name service)) services = true →
  Registry._services (snd (Registry._loadServices_each services r)) !! name =
  Registry._services r !! name.
Proof.
  revert r. induction services as [|service rest IH]; intros r Hno; [done|].
  cbn [forallb] in Hno. apply andb_prop in Hno as [Hs Hrest].
  cbn [Registry._loadServices_each]. unfold Reload.stored_as in Hs.
  destruct (node_nodes service) as [ns|]; [|by apply IH].
  destruct (Registry.parse_nodes ns) as [nodes|]; [|done].
  rewrite IH by done. cbn.
  apply lookup_insert_ne. intros Heq.
  apply negb_true_iff in Hs. by rewrite Heq, String.eqb_refl in Hs.
Qed.

(** The reload leaves alone every name no listed directory is stored
    under. *)
Theorem reload_keeps_unlisted_names services name r :
  forallb (fun service => negb (Reload.stored_as name service)) services = true →
  Registry._services (snd (Registry._loadServices_each services r)) !! name =
  Registry._services r !! name.
Proof. apply _loadServices_each_other_names. Qed.

(** When everything listed deserializes, a name ends up with the records
    of the last directory stored under it, and a [getService] for it is
    then answered from the cache, without a read, as long as that
    directory was not empty. *)
Theorem reload_last_directory_wins pre dir post ns nodes r :
  forallb Reload.loads (pre ++ dir :: post) = true →
  node_nodes dir = Some ns →
  Registry.parse_nodes (A := ServiceDefinition) ns = Normal nodes →
  forallb (fun service =>
             negb (Reload.stored_as (Path.basename (node_key dir)) service)) post = true →
  let name := Path.basename (node_key dir) in
  let r' := snd (Registry._loadServices_each (pre ++ dir :: post) r) in
  fst (Registry._loadServices_each (pre ++ dir :: post) r) = Normal tt
  ∧ Registry._services r' !! name = Some nodes
  ∧ (nodes ≠ [] → Registry.getService name r' = (Normal (Some nodes), r')).
Proof.
  intros Hok Hdir Hparse Hpost name r'.
  assert (Registry._services r' !! name = Some nodes) as Hcache.
  { subst r'. rewrite forallb_app in Hok. apply andb_prop in Hok as [Hpre _].
    destruct (_loadServices_each_app pre (dir :: post) r Hpre) as [-> _].
    cbn [Registry._loadServices_each]. rewrite Hdir, Hparse.
    rewrite _loadServices_each_other_names by done. cbn.
    by rewrite lookup_insert_eq. }
  split_and!; [|done|].
  - by destruct (_loadServices_each_app (pre ++ dir :: post) [] r Hok)
      as [_ Hnormal].
  - intros Hne.
    destruct (getService_run name r') as (found & k & Heq & _ & _ & Hhit & _).
    destruct (Hhit nodes) as [-> ->]; [|done].
    unfold Lookup.cached. rewrite Hcache. by destruct nodes.
Qed.

End ReloadFacts.

(* ===================================================================== *)
(** ** More about lookups and renewals *)
(* ===================================================================== *)

Section RetryFacts.

Context {W : Type} `{!World W}.
Context `{!JsonUtils ServiceDefinition}.

Implicit Types (r : Registry.t W) (name key : string).

Lemma etcd_read_step key r :
  Registry._etcd (Lookup.read_step key r) = snd (etcd_getSync key (Registry._etcd r)).
Proof. reflexivity. Qed.

Lemma retried_read_first_success n k key found r :
  (k < n)%nat →
  Lookup.next_reads Lookup.read_fails k key (Registry._etcd r) = true →
  Lookup.read_outcome
    (fst (etcd_getSync key (Registry._etcd (Lookup.after_reads key k r)))) = Normal found →
  Lookup.retried_read n key r = (Normal found, Lookup.after_reads key (S k) r).
Proof.
  revert n r. induction k as [|k IH]; intros n r Hlt Hfail Hgood.
  - destruct n as [|n]; [lia|]. cbn [Lookup.retried_read Lookup.after_reads] in *.
    by rewrite Hgood.
  - destruct n as [|n]; [lia|].
    cbn [Lookup.next_reads] in Hfail. apply andb_prop in Hfail as [Hf Hrest].
    unfold Lookup.read_fails in Hf.
    cbn [Lookup.retried_read].
    destruct (Lookup.read_outcome (etcd_getSync key (Registry._etcd r)).1); [done|].
    rewrite (IH n (Lookup.read_step key r)); [done|lia|done|done].
Qed.

(** Failed reads are absorbed: when the first [k] reads of the store fail
    ([k] at most five) and the next one finds records, [getService]
    returns the records of that read, after exactly [k + 1] reads. *)
Theorem getService_returns_first_successful_read name r k found :
  let key := Path.join [SERVICES_KEY; name] in
  Lookup.cached (Registry._services r) name = None →
  (k ≤ 5)%nat →
  Lookup.next_reads Lookup.read_fails k key (Registry._etcd r) = true →
  Lookup.read_outcome
    (fst (etcd_getSync key (Registry._etcd (Lookup.after_reads key k r)))) = Normal found →
  Registry.getService name r = (Normal found, Lookup.after_reads key (S k) r)
  ∧ Lookup.events_since r (snd (Registry.getService name r)) =
      repeat (EGetSync key) (S k).
Proof.
  intros key Hmiss Hk Hfail Hgood.
  assert (Registry.getService name r = (Normal found, Lookup.after_reads key (S k) r))
    as Heq.
  { unfold Registry.getService. rewrite _getService_retried, Hmiss.
    apply retried_read_first_success; [lia|done|done]. }
  split; [done|]. rewrite Heq. cbn [snd].
  unfold Lookup.events_since. by rewrite trace_after_reads, drop_app_length.
Qed.

Lemma retried_read_more n d key nodes r r' :
  Lookup.retried_read n key r = (Normal (Some nodes), r') →
  Lookup.retried_read (n + d) key r = (Normal (Some nodes), r').
Proof.
  revert r. induction n as [|n IH]; intros r; [done|].
  cbn [Nat.add Lookup.retried_read].
  destruct (Lookup.read_outcome _); [done|]. apply IH.
Qed.

(** A larger retry budget never loses a result: what [_getService] finds
    with [n] retries it finds, in the same state, with any [m] above [n];
    and when it comes back empty-handed with [m] retries it does so with
    fewer. *)
Theorem _getService_budget_monotone n m name r :
  (n ≤ m)%nat →
  (∀ nodes r', Registry._getService n name r = (Normal (Some nodes), r') →
               Registry._getService m name r = (Normal (Some nodes), r'))
  ∧ (fst (Registry._getService m name r) = Normal None →
     fst (Registry._getService n name r) = Normal None).
Proof.
  intros Hle.
  assert (∀ nodes r', Registry._getService n name r = (Normal (Some nodes), r') →
                      Registry._getService m name r = (Normal (Some nodes), r')) as Hup.
  { intros nodes r'. rewrite !_getService_retried.
    destruct (Lookup.cached _ _); [done|].
    replace (S m) with (S n + (m - n))%nat by lia. apply retried_read_more. }
  split; [done|].
  intros Hnone.
  destruct (Registry._getService n name r) as [c rn] eqn:Hn.
  assert (∃ found, c = Normal found) as [found ->].
  { rewrite _getService_retried in Hn.
    destruct (Lookup.cached _ _); [injection Hn as <- _; eauto|].
    destruct (retried_read_run (S n) (Path.join [SERVICES_KEY; name]) r)
      as (found & k & Heq & _). rewrite Heq in Hn. injection Hn as <- _. eauto. }
  destruct found as [nodes|]; [|done].
  rewrite (Hup nodes rn eq_refl) in Hnone. done.
Qed.

(** What the store fallback finds is handed to the caller and not kept:
    [getService] leaves cache and options as they are, so a second
    [getService] for a name that is not cached reads the store again. *)
Theorem getService_does_not_fill_cache name r :
  let key := Path.join [SERVICES_KEY; name] in
  let r1 := snd (Registry.getService name r) in
  Registry._services r1 = Registry._services r
  ∧ Registry._options r1 = Registry._options r
  ∧ (Lookup.cached (Registry._services r) name = None →
     ∃ found k, Registry.getService name r1 = (Normal found, Lookup.after_reads key k r1)
                ∧ (1 ≤ k ≤ 6)%nat).
Proof.
  intros key r1.
  destruct (getService_run name r) as (found & k & Heq & _).
  assert (Registry._services r1 = Registry._services r) as Hcache.
  { subst r1. rewrite Heq. apply cached_after_reads. }
  split_and!; [done| |].
  - subst r1. rewrite Heq. apply options_after_reads.
  - intros Hmiss.
    destruct (getService_run name r1) as (found' & k' & Heq' & Hk' & _ & _ & Hpos).
    exists found', k'. split; [done|]. split; [|done].
    apply Hpos. by rewrite Hcache.
Qed.

(** [renew] works from the cache when the name is cached: it reads
    nothing from the store, and when the cached list has the id it writes
    that cached record back with the registry's ttl option, whether or not
    the store still holds it; when the list has not, nothing happens at
    all. *)
Theorem renew_from_cache_makes_no_read name (id : JsValue) r nodes :
  Lookup.cached (Registry._services r) name = Some nodes →
  match List.find (fun n => strict_eq (ServiceDefinition.id n) id) nodes with
  | Some node =>
      Registry.renew name id r = Registry._saveService node r
      ∧ Lookup.events_since r (snd (Registry.renew name id r)) =
          [ESet (Path.join [SERVICES_KEY; ServiceDefinition.name node;
                            ServiceDefinition.id node])
             (stringify node)
             {| maxRetries := 3; ttl := Registry._options r !! "ttl" |}]
  | None => Registry.renew name id r = (Normal tt, r)
  end.
Proof.
  intros Hhit.
  destruct (getService_run name r) as (found & k & Heq & _ & _ & Hcached & _).
  destruct (Hcached nodes Hhit) as [-> ->]. cbn [Lookup.after_reads] in Heq.
  unfold Registry.renew, Registry.bind. rewrite Heq.
  destruct (List.find _ nodes) as [node|]; [|done].
  split; [done|].
  unfold Registry._saveService, Registry.bind, Registry.get_options, Registry.set,
    Lookup.events_since, Registry.log.
  cbn [snd Registry.trace Registry.with_etcd]. by rewrite drop_app_length.
Qed.

(** The ids of records are strings and [renew] compares with [===]: an id
    passed as a number (or left out) matches no record, so such a [renew]
    only looks the name up and never writes. *)
Theorem renew_with_non_string_id_never_writes name (id : JsValue) r :
  (∀ s, id ≠ JsString s) →
  ∃ k, Registry.renew name id r =
         (Normal tt, Lookup.after_reads (Path.join [SERVICES_KEY; name]) k r)
       ∧ (k ≤ 6)%nat
       ∧ List.filter is_write (Lookup.events_since r (snd (Registry.renew name id r))) = [].
Proof.
  intros Hid.
  destruct (getService_run name r) as (found & k & Heq & Hk & _).
  assert (Registry.renew name id r =
            (Normal tt, Lookup.after_reads (Path.join [SERVICES_KEY; name]) k r))
    as Hrenew.
  { unfold Registry.renew, Registry.bind. rewrite Heq.
    destruct found as [nodes|]; [|done].
    rewrite find_none_of_no_match; [done|].
    intros node _. destruct id as [| |s]; [done|done|]. by destruct (Hid s). }
  exists k. split_and!; [done|done|].
  rewrite Hrenew. cbn [snd]. unfold Lookup.events_since.
  rewrite trace_after_reads, drop_app_length.
  clear. induction k as [|k IH]; [done|]. simpl. exact IH.
Qed.

End RetryFacts.

(* ===================================================================== *)
(** ** More about [getServiceOptions], the constructor and [register] *)
(* ===================================================================== *)

Section OptionsFacts.

Context {W : Type} `{!World W}.
Context `{!JsonUtils ServiceDefinition} `{!JsonUtils Blob}.

Implicit Types (r : Registry.t W) (name key : string).

Lemma settled_resolved {A} n maxRetries (v : option A) :
  Lookup.settled n maxRetries (Resolved v) = Resolved v.
Proof.
  revert maxRetries. induction n as [|n IH]; intros maxRetries; [done|].
  cbn [Lookup.settled]. destruct (maxRetries <=? 0); apply IH.
Qed.

Lemma settled_resolved_from_11 (k : nat) :
  (11 ≤ k)%nat → Lookup.settled k Registry.MAX_RETRIES (@Pending Blob) = Resolved None.
Proof.
  intros Hle. replace k with (11 + (k - 11))%nat by lia.
  do 11 (cbn [Nat.add Lookup.settled]; try change (Registry.MAX_RETRIES) with 10).
  cbn. apply settled_resolved.
Qed.

(** The run up to the first read that does not fail. *)
Lemma _getServiceOptions_inner_after_failures k extra name maxRetries
    (p : Promise Blob) r :
  let key := Path.join [SERVICES_OPTIONS_KEY; name] in
  Lookup.options_reads_fail k key maxRetries (Registry._etcd r) = true →
  ∃ rk,
    Registry._getServiceOptions_inner (k + extra) name maxRetries p r =
    Registry._getServiceOptions_inner extra name (maxRetries - Z.of_nat k)
      (Lookup.settled k maxRetries p) rk
    ∧ Registry.trace rk = Registry.trace r ++ Lookup.failed_attempts k key maxRetries
    ∧ Registry._etcd rk = OptionsRun.world_after k key maxRetries (Registry._etcd r)
    ∧ Registry._services rk = Registry._services r
    ∧ Registry._options rk = Registry._options r.
Proof.
  intros key. revert maxRetries p r.
  induction k as [|k IH]; intros maxRetries p r Hfail.
  - exists r. cbn. rewrite Z.sub_0_r, app_nil_r. done.
  - cbn [Lookup.options_reads_fail] in Hfail. apply andb_prop in Hfail as [Hf Hrest].
    cbn [Nat.add Registry._getServiceOptions_inner]. fold key.
    unfold Registry.get. unfold Lookup.get_fails in Hf.
    destruct (etcd_get key false (Registry._etcd r)) as [res w] eqn:Hget.
    cbn [fst snd] in *.
    set (r1 := Registry.setTimeout ((Registry.MAX_RETRIES - maxRetries) * 500)
                 (Registry.log (EGet key) (Registry.with_etcd w r))).
    destruct (IH (maxRetries - 1) (if maxRetries <=? 0 then resolve None p else p) r1 Hrest)
      as (rk & Hrun & Htrace & Hworld & Hcache & Hopts).
    exists rk.
    replace (maxRetries - Z.of_nat (S k)) with (maxRetries - 1 - Z.of_nat k) by lia.
    cbn [Lookup.settled Lookup.failed_attempts OptionsRun.world_after].
    rewrite Hget. cbn [snd].
    split_and!; [|by rewrite Htrace; cbn; rewrite <- !app_assoc|done|done|done].
    destruct (err res); [done|].
    by destruct (body res) as [[[nd|]]|].
Qed.

(** [getServiceOptions] stops at the first read that is answered: after
    [k] failed reads and a read whose value deserializes to [v], the
    promise is resolved to [v] when [k] is at most ten, it stays resolved
    to [undefined] when the answer comes later than that, and in both
    cases no read is made after the answered one, however long the
    function is left to run. *)
Theorem getServiceOptions_stops_at_first_answer k extra name r val (v : Blob) :
  let key := Path.join [SERVICES_OPTIONS_KEY; name] in
  Lookup.options_reads_fail k key Registry.MAX_RETRIES (Registry._etcd r) = true →
  OptionsRun.answer_value
    (fst (etcd_get key false
            (OptionsRun.world_after k key Registry.MAX_RETRIES (Registry._etcd r)))) =
    Some val →
  parse val = Some v →
  ((k ≤ 10)%nat →
     fst (Registry.getServiceOptions (S k + extra) name r) = Resolved (Some v))
  ∧ ((11 ≤ k)%nat →
     fst (Registry.getServiceOptions (S k + extra) name r) = Resolved None)
  ∧ Lookup.events_since r (snd (Registry.getServiceOptions (S k + extra) name r)) =
      Lookup.failed_attempts k key Registry.MAX_RETRIES ++ [EGet key].
Proof.
  intros key Hfail Hans Hparse.
  unfold Registry.getServiceOptions, Registry._getServiceOptions.
  replace (S k + extra)%nat with (k + S extra)%nat by lia.
  destruct (_getServiceOptions_inner_after_failures k (S extra) name
              Registry.MAX_RETRIES Pending r Hfail)
    as (rk & -> & Htrace & Hworld & _).
  fold key in Hworld, Htrace. rewrite <- Hworld in Hans.
  cbn [Registry._getServiceOptions_inner]. fold key. unfold Registry.get.
  destruct (etcd_get key false (Registry._etcd rk)) as [res w]. cbn [fst] in Hans.
  unfold OptionsRun.answer_value in Hans.
  destruct (err res); [done|].
  destruct (body res) as [[[nd|]]|]; [|done|done].
  injection Hans as ->. rewrite Hparse. cbn [fst snd].
  split_and!.
  - intros Hk. by rewrite settled_pending_upto_10.
  - intros Hk. by rewrite settled_resolved_from_11.
  - apply events_since_app. cbn. by rewrite Htrace, <- app_assoc.
Qed.

(** A stored options value that fails to deserialize leaves the promise
    of [getServiceOptions] pending for good: the exception escapes the
    callback, nothing resolves the promise and no further read is made. *)
Theorem getServiceOptions_hangs_on_malformed_value k extra name r val :
  let key := Path.join [SERVICES_OPTIONS_KEY; name] in
  (k ≤ 10)%nat →
  Lookup.options_reads_fail k key Registry.MAX_RETRIES (Registry._etcd r) = true →
  OptionsRun.answer_value
    (fst (etcd_get key false
            (OptionsRun.world_after k key Registry.MAX_RETRIES (Registry._etcd r)))) =
    Some val →
  parse (A := Blob) val = None →
  fst (Registry.getServiceOptions (S k + extra) name r) = Pending
  ∧ Lookup.events_since r (snd (Registry.getServiceOptions (S k + extra) name r)) =
      Lookup.failed_attempts k key Registry.MAX_RETRIES ++ [EGet key; EUncaught].
Proof.
  intros key Hk Hfail Hans Hparse.
  unfold Registry.getServiceOptions, Registry._getServiceOptions.
  replace (S k + extra)%nat with (k + S extra)%nat by lia.
  destruct (_getServiceOptions_inner_after_failures k (S extra) name
              Registry.MAX_RETRIES Pending r Hfail)
    as (rk & -> & Htrace & Hworld & _).
  fold key in Hworld, Htrace. rewrite <- Hworld in Hans.
  cbn [Registry._getServiceOptions_inner]. fold key. unfold Registry.get.
  destruct (etcd_get key false (Registry._etcd rk)) as [res w]. cbn [fst] in Hans.
  unfold OptionsRun.answer_value in Hans.
  destruct (err res); [done|].
  destruct (body res) as [[[nd|]]|]; [|done|done].
  injection Hans as ->. rewrite Hparse. cbn [fst snd].
  split; [by apply settled_pending_upto_10|].
  apply events_since_app. cbn. by rewrite Htrace, <- !app_assoc.
Qed.

Lemma _getServiceOptions_inner_frame fuel name maxRetries (p : Promise Blob) r :
  let key := Path.join [SERVICES_OPTIONS_KEY; name] in
  let r' := snd (Registry._getServiceOptions_inner fuel name maxRetries p r) in
  Registry._services r' = Registry._services r
  ∧ Registry._options r' = Registry._options r
  ∧ ∃ events, Registry.trace r' = Registry.trace r ++ events
              ∧ forallb (OptionsRun.allowed key) events = true.
Proof.
  intros key. revert maxRetries p r.
  induction fuel as [|fuel IH]; intros maxRetries p r.
  - split_and!; [done|done|]. exists []. by rewrite app_nil_r.
  - cbn [Registry._getServiceOptions_inner]. fold key. unfold Registry.get.
    destruct (etcd_get key false (Registry._etcd r)) as [res w].
    assert (OptionsRun.allowed key (EGet key) = true) as Hget.
    { cbn. apply String.eqb_refl. }
    set (r1 := Registry.setTimeout ((Registry.MAX_RETRIES - maxRetries) * 500)
                 (Registry.log (EGet key) (Registry.with_etcd w r))).
    assert (let r' := snd (Registry._getServiceOptions_inner fuel name (maxRetries - 1)
                             (if maxRetries <=? 0 then resolve None p else p) r1) in
            Registry._services r' = Registry._services r
            ∧ Registry._options r' = Registry._options r
            ∧ ∃ events, Registry.trace r' = Registry.trace r ++ events
                        ∧ forallb (OptionsRun.allowed key) events = true) as Hretry.
    { destruct (IH (maxRetries - 1) (if maxRetries <=? 0 then resolve None p else p) r1)
        as (Hc & Ho & events & Ht & Hall).
      split_and!; [done|done|].
      exists (EGet key :: ESetTimeout ((Registry.MAX_RETRIES - maxRetries) * 500) :: events).
      split; [rewrite Ht; cbn; by rewrite <- !app_assoc|].
      cbn [forallb]. by rewrite Hget, Hall. }
    destruct (err res); [exact Hretry|].
    destruct (body res) as [[[nd|]]|]; [|exact Hretry|exact Hretry].
    destruct (parse (node_value nd)); cbn [snd].
    + split_and!; [done|done|]. exists [EGet key]. split; [done|].
      cbn [forallb]. by rewrite Hget.
    + split_and!; [done|done|]. exists [EGet key; EUncaught].
      split; [cbn; by rewrite <- app_assoc|]. cbn [forallb]. by rewrite Hget.
Qed.

(** [getServiceOptions] never looks at the cache and never writes: for any
    state and any length of run it leaves cache and options as they are,
    and everything it does is reading the options key of the name and
    setting timers; with any fuel at all its first act is that read, also
    for a name whose records are cached. *)
Theorem getServiceOptions_only_reads_options_key fuel name r :
  let key := Path.join [SERVICES_OPTIONS_KEY; name] in
  let r' := snd (Registry.getServiceOptions fuel name r) in
  Registry._services r' = Registry._services r
  ∧ Registry._options r' = Registry._options r
  ∧ forallb (OptionsRun.allowed key) (Lookup.events_since r r') = true
  ∧ List.filter is_write (Lookup.events_since r r') = []
  ∧ (fuel ≠ 0%nat → head (Lookup.events_since r r') = Some (EGet key)).
Proof.
  intros key r'.
  destruct (_getServiceOptions_inner_frame fuel name Registry.MAX_RETRIES Pending r)
    as (Hc & Ho & events & Ht & Hall).
  fold key in Hall. subst r'.
  unfold Registry.getServiceOptions, Registry._getServiceOptions.
  rewrite (events_since_app _ _ _ Ht).
  split_and!; [done|done|done| |].
  - clear Ht. induction events as [|e events IH]; [done|].
    cbn [forallb] in Hall. apply andb_prop in Hall as [He Hrest].
    cbn [List.filter]. destruct e; try done; by apply IH.
  - intros Hfuel. destruct fuel as [|fuel]; [done|].
    cbn [Registry._getServiceOptions_inner] in Ht. fold key in Ht.
    unfold Registry.get in Ht.
    destruct (etcd_get key false (Registry._etcd r)) as [res w].
    assert (∃ rest, Registry.trace
              (snd (Registry._getServiceOptions_inner fuel name (Registry.MAX_RETRIES - 1)
                 (if Registry.MAX_RETRIES <=? 0 then resolve None Pending else Pending)
                 (Registry.setTimeout ((Registry.MAX_RETRIES - Registry.MAX_RETRIES) * 500)
                    (Registry.log (EGet key) (Registry.with_etcd w r))))) =
              Registry.trace r ++ EGet key :: rest) as [rest Hretry].
    { destruct (_getServiceOptions_inner_frame fuel name (Registry.MAX_RETRIES - 1)
                  (if Registry.MAX_RETRIES <=? 0 then resolve None Pending else Pending)
                  (Registry.setTimeout ((Registry.MAX_RETRIES - Registry.MAX_RETRIES) * 500)
                     (Registry.log (EGet key) (Registry.with_etcd w r))))
        as (_ & _ & evs & Hevs & _).
      eexists. rewrite Hevs. cbn. rewrite <- !app_assoc. reflexivity. }
    assert (∃ rest, Registry.trace r ++ events = Registry.trace r ++ EGet key :: rest)
      as [rest' Heq].
    { rewrite <- Ht. destruct (err res); [eauto|].
      destruct (body res) as [[[nd|]]|]; [|eauto|eauto].
      destruct (parse (node_value nd)); cbn [snd]; [by exists []|].
      exists [EUncaught]. cbn. by rewrite <- app_assoc. }
    apply app_inv_head in Heq. by rewrite Heq.
Qed.

(** The constructor hands every option through as the caller gave it and
    adds only the field [tll], which nothing reads: the lease [register]
    puts on a record is the caller's [ttl] whatever it is (also 0, for
    which the default was meant), and never the default. *)
Theorem constructor_passes_ttl_as_given (hosts : W) (options : gmap string Z)
    name (connection opts : Blob) :
  let r0 := Registry.constructor hosts options in
  let u := fst (Random_uuid hosts) in
  let service := {| ServiceDefinition.id := u;
                    ServiceDefinition.name := name;
                    ServiceDefinition.connection := connection;
                    ServiceDefinition.options := None |} in
  (∀ field, field ≠ "tll" → Registry._options r0 !! field = options !! field)
  ∧ (∃ t, Registry._options r0 !! "tll" = Some t ∧ t ≠ 0)
  ∧ Registry._services r0 = ∅
  ∧ Registry.trace r0 = [EGet SERVICES_KEY; EWatcher SERVICES_KEY]
  ∧ Lookup.events_since r0 (snd (Registry.register name connection opts r0)) =
      [ESet (Path.join [SERVICES_KEY; name; u]) (stringify service)
         {| maxRetries := 3; ttl := options !! "ttl" |};
       ESet (Path.join [SERVICES_OPTIONS_KEY; name]) (stringify opts)
         {| maxRetries := 3; ttl := None |}].
Proof.
  intros r0 u service.
  assert (∀ field, field ≠ "tll" → Registry._options r0 !! field = options !! field)
    as Hpass.
  { intros field Hne. subst r0. cbn. by rewrite lookup_insert_ne. }
  split_and!; [done| |done|done|].
  - exists (js_or (options !! "ttl") TTL_SECONDS). split.
    + subst r0. cbn. by rewrite lookup_insert_eq.
    + unfold js_or. destruct (options !! "ttl") as [x|]; [|done].
      destruct (x =? 0) eqn:Hx; [done|]. by apply Z.eqb_neq.
  - erewrite events_since_app by (rewrite register_unfold; reflexivity).
    rewrite Hpass by done. reflexivity.
Qed.

(** [register] writes and returns: it reads nothing and leaves cache and
    options as they are, so the new record is not served from the cache
    of the registering instance; a [getService] right after, for a name
    that was not cached, has to read the store. *)
Theorem register_leaves_cache_alone name (connection opts : Blob) r lookup_name :
  let r1 := snd (Registry.register name connection opts r) in
  Registry._services r1 = Registry._services r
  ∧ Registry._options r1 = Registry._options r
  ∧ List.filter is_read (Lookup.events_since r r1) = []
  ∧ (Lookup.cached (Registry._services r) lookup_name = None →
     ∃ found k,
       Registry.getService lookup_name r1 =
         (Normal found,
          Lookup.after_reads (Path.join [SERVICES_KEY; lookup_name]) k r1)
       ∧ (1 ≤ k ≤ 6)%nat).
Proof.
  intros r1.
  assert (Registry._services r1 = Registry._services r) as Hcache.
  { subst r1. by rewrite register_unfold. }
  split_and!; [done| | |].
  - subst r1. by rewrite register_unfold.
  - subst r1. erewrite events_since_app by (rewrite register_unfold; reflexivity).
    reflexivity.
  - intros Hmiss.
    destruct (getService_run lookup_name r1) as (found & k & Heq & Hk & _ & _ & Hpos).
    exists found, k. split; [done|]. split; [|done]. apply Hpos. by rewrite Hcache.
Qed.

(** The two revisions of [register] agree on the id, the key and the lease
    of the record; the one that keeps the options inside the record makes
    that one write and no write under [services-options]. *)
Theorem inline_register_writes_record_only name (connection opts : Blob) r :
  let u := fst (Random_uuid (Registry._etcd r)) in
  let key := Path.join [SERVICES_KEY; name; u] in
  let lease := {| maxRetries := 3; ttl := Registry._options r !! "ttl" |} in
  let inline := {| ServiceDefinition.id := u;
                   ServiceDefinition.name := name;
                   ServiceDefinition.connection := connection;
                   ServiceDefinition.options := Some opts |} in
  fst (InlineOptions.register name connection opts r) = Normal u
  ∧ fst (Registry.register name connection opts r) = Normal u
  ∧ Lookup.events_since r (snd (InlineOptions.register name connection opts r)) =
      [ESet key (stringify inline) lease]
  ∧ omap Lookup.write_key
      (Lookup.events_since r (snd (Registry.register name connection opts r))) =
      [key; Path.join [SERVICES_OPTIONS_KEY; name]]
  ∧ Registry._services (snd (InlineOptions.register name connection opts r)) =
      Registry._services r.
Proof.
  intros u key lease inline.
  assert (InlineOptions.register name connection opts r =
          (Normal u,
           Registry.log (ESet key (stringify inline) lease)
             (Registry.with_etcd
                (etcd_set key (stringify inline) lease
                   (snd (Random_uuid (Registry._etcd r)))) r))) as Hinline.
  { unfold InlineOptions.register, InlineOptions._saveService, Registry.bind,
      Registry.uuid, Registry._saveService, Registry.get_options, Registry.set,
      Registry.ret. subst u key lease inline.
    by destruct (Random_uuid (Registry._etcd r)) as [u w0]. }
  split_and!.
  - by rewrite Hinline.
  - by rewrite register_unfold.
  - rewrite Hinline. by apply events_since_app.
  - erewrite events_since_app by (rewrite register_unfold; reflexivity). reflexivity.
  - by rewrite Hinline.
Qed.

End OptionsFacts.

(* ===================================================================== *)
(** ** The name a stored record is cached under *)
(* ===================================================================== *)

Section NameFacts.

Lemma basename_of_services_directory name :
  Path.plain_segment name = true →
  Path.basename (Path.join [SERVICES_KEY; name]) = name
  ∧ Path.basename ("/" +:+ Path.join [SERVICES_KEY; name]) = name.
Proof.
  intros Hname.
  assert (Forall (λ s, Path.plain_segment s = true) [SERVICES_KEY; name]) as Hall.
  { by repeat constructor. }
  assert (Forall (λ s, Path.no_sep s = true) [SERVICES_KEY; name]) as Hns.
  { eapply Forall_impl; [exact Hall|]. intros s Hs. by apply plain_segment_inv. }
  apply plain_segment_inv in Hname as (_ & Hne & _).
  assert (Path.nonempty name = true) as Hnonempty.
  { unfold Path.nonempty. by rewrite (proj2 (String.eqb_neq name EmptyString)). }
  rewrite join_plain by done. unfold Path.basename.
  split.
  - rewrite split_concat by done. cbn. by rewrite Hnonempty.
  - assert (Path.split ("/" +:+ String.concat "/" [SERVICES_KEY; name]) =
            EmptyString :: Path.split (String.concat "/" [SERVICES_KEY; name])) as ->.
    { reflexivity. }
    rewrite split_concat by done. cbn. by rewrite Hnonempty.
Qed.

(** For a service name that is an ordinary path segment, the directory
    [_saveService] writes the records of the name into has the name as its
    last segment, with or without the leading slash etcd puts in its keys:
    [_loadServices] caches the records under the name [getService] looks
    up. *)
Theorem cache_name_matches_service_name name :
  Path.plain_segment name = true →
  Path.basename (Path.join [SERVICES_KEY; name]) = name
  ∧ Path.basename ("/" +:+ Path.join [SERVICES_KEY; name]) = name.
Proof. apply basename_of_services_directory. Qed.

End NameFacts.

(* ===================================================================== *)
(** ** Register, look up, renew and reload on the reference store *)
(* ===================================================================== *)

Section StoreFacts.

Local Existing Instance EtcdModel.world.
Context `{!JsonUtils ServiceDefinition} `{!JsonUtils Blob}.

Implicit Types (w : EtcdModel.t) (r : Registry.t EtcdModel.t)
  (l : list (list string * EtcdModel.Entry)) (dir k : list string).

Lemma segs_eqb_eq k k' : EtcdModel.segs_eqb k k' = true → k = k'.
Proof.
  revert k'. induction k as [|s k IH]; intros [|s' k']; try done.
  simpl. intros [Hs Hk]%andb_prop. apply String.eqb_eq in Hs as ->.
  by rewrite (IH k' Hk).
Qed.

Lemma strip_app dir rest : EtcdModel.strip dir (dir ++ rest) = Some rest.
Proof.
  induction dir as [|s dir IH]; [by destruct rest|]. simpl.
  by rewrite String.eqb_refl.
Qed.

Lemma strip_longer_none dir x k :
  EtcdModel.strip dir k = None → EtcdModel.strip (dir ++ [x]) k = None.
Proof.
  revert k. induction dir as [|s dir IH]; intros k; [by destruct k|].
  destruct k as [|s' k]; [done|]. simpl.
  destruct (String.eqb s s'); [apply IH|done].
Qed.

Lemma clear_of_under dir w :
  StoreShape.clear_of dir w = true →
  StoreShape.under dir (EtcdModel.entries w) = []
  ∧ EtcdModel.find_entry dir (EtcdModel.entries w) = None.
Proof.
  unfold StoreShape.clear_of, StoreShape.under.
  induction (EtcdModel.entries w) as [|[k e] l IH]; [done|].
  cbn [forallb List.filter EtcdModel.find_entry]. intros [Hk Hl]%andb_prop.
  destruct (IH Hl) as [-> ->]. unfold StoreShape.is_under.
  destruct (EtcdModel.strip dir k) eqn:Hs; [done|].
  split; [done|].
  destruct (EtcdModel.segs_eqb dir k) eqn:Heq; [|done].
  apply segs_eqb_eq in Heq as <-.
  pose proof (strip_app dir []) as Hself. rewrite app_nil_r in Hself. congruence.
Qed.

Lemma clear_of_longer dir x w :
  StoreShape.clear_of dir w = true → StoreShape.clear_of (dir ++ [x]) w = true.
Proof.
  unfold StoreShape.clear_of.
  induction (EtcdModel.entries w) as [|[k e] l IH]; [done|].
  cbn [forallb]. intros [Hk Hl]%andb_prop. rewrite (IH Hl), andb_true_r.
  destruct (EtcdModel.strip dir k) eqn:Hs; [done|].
  by rewrite (strip_longer_none _ _ _ Hs).
Qed.

Lemma find_entry_put_ne dir k e l :
  EtcdModel.segs_eqb dir k = false →
  EtcdModel.find_entry dir (EtcdModel.put k e l) = EtcdModel.find_entry dir l.
Proof.
  intros Hne. induction l as [|[k' e'] l IH]; simpl.
  - by rewrite Hne.
  - destruct (EtcdModel.segs_eqb k k') eqn:Heq; simpl.
    + apply segs_eqb_eq in Heq as <-. by rewrite Hne.
    + by rewrite IH.
Qed.

Lemma under_put_outside dir k e l :
  StoreShape.is_under dir k = false →
  StoreShape.under dir (EtcdModel.put k e l) = StoreShape.under dir l.
Proof.
  intros Hout. unfold StoreShape.under.
  induction l as [|[k' e'] l IH]; simpl.
  - by rewrite Hout.
  - destruct (EtcdModel.segs_eqb k k') eqn:Heq; simpl.
    + apply segs_eqb_eq in Heq as <-. by rewrite Hout.
    + by rewrite IH.
Qed.

Lemma under_put_fresh dir k e l :
  StoreShape.under dir l = [] → StoreShape.is_under dir k = true →
  StoreShape.under dir (EtcdModel.put k e l) = [(k, e)].
Proof.
  intros Hclear Hin. unfold StoreShape.under in *.
  induction l as [|[k' e'] l IH]; simpl in *.
  - by rewrite Hin.
  - destruct (StoreShape.is_under dir k') eqn:Hk'; [done|].
    destruct (EtcdModel.segs_eqb k k') eqn:Heq; simpl.
    + apply segs_eqb_eq in Heq as <-. congruence.
    + rewrite Hk'. by apply IH.
Qed.

Lemma under_put_same dir k e e' l :
  StoreShape.under dir l = [(k, e)] →
  StoreShape.under dir (EtcdModel.put k e' l) = [(k, e')].
Proof.
  unfold StoreShape.under.
  induction l as [|[k' e''] l IH]; simpl; [done|].
  destruct (StoreShape.is_under dir k') eqn:Hk'.
  - intros [= -> -> Hrest].
    rewrite segs_eqb_refl. simpl. by rewrite Hk', Hrest.
  - intros Hrest. destruct (EtcdModel.segs_eqb k k') eqn:Heq; simpl.
    + apply segs_eqb_eq in Heq as <-.
      assert (In (k, e) (List.filter (λ '(k0, _), StoreShape.is_under dir k0) l)) as Hin.
      { rewrite Hrest. by left. }
      apply filter_In in Hin as [_ Hin]. congruence.
    + rewrite Hk'. by apply IH.
Qed.

Lemma below_under now dir l :
  EtcdModel.below now dir l =
  List.filter (fun '(_, e) => EtcdModel.live now e) (StoreShape.under dir l).
Proof.
  unfold EtcdModel.below, StoreShape.under, StoreShape.is_under.
  induction l as [|[k e] l IH]; [done|]. simpl.
  destruct (EtcdModel.strip dir k) as [[|x rest]|]; simpl;
    rewrite ?andb_false_r, ?andb_true_r; try done.
  destruct (EtcdModel.live now e); by rewrite IH.
Qed.

(** What a read of a directory holding one record answers. *)
Lemma read_single_record depth key dir u e w :
  EtcdModel.key_segments key = dir →
  EtcdModel.find_entry dir (EtcdModel.entries w) = None →
  StoreShape.under dir (EtcdModel.entries w) = [(dir ++ [u], e)] →
  EtcdModel.read (S depth) key w =
    if EtcdModel.live (EtcdModel.now w) e
    then {| err := None;
            body := Some {| node := Some
              (Node (EtcdModel.render dir) None
                 (Some [Node (EtcdModel.render (dir ++ [u]))
                          (Some (EtcdModel.e_value e)) None])) |} |}
    else EtcdModel.key_not_found.
Proof.
  intros Hkey Hfind Hunder. unfold EtcdModel.read. rewrite Hkey, Hfind.
  cbn [EtcdModel.children]. rewrite below_under, Hunder. cbn [List.filter].
  destruct (EtcdModel.live _ e); [|done].
  cbn [flat_map]. rewrite strip_app. reflexivity.
Qed.

Lemma key_segments_join_plain segs :
  segs ≠ [] → Forall (λ s, Path.plain_segment s = true) segs →
  EtcdModel.key_segments (Path.join segs) = segs.
Proof.
  intros Hne Hall. unfold EtcdModel.key_segments.
  rewrite join_plain, split_concat; [|done| |done|done].
  - clear Hne. induction Hall as [|s segs Hs _ IH]; [done|]. simpl.
    apply plain_segment_inv in Hs as (_ & Hs & _).
    unfold Path.nonempty at 1. rewrite (proj2 (String.eqb_neq s EmptyString)) by done.
    simpl. by rewrite IH.
  - eapply Forall_impl; [exact Hall|]. intros s Hs. by apply plain_segment_inv.
Qed.

Lemma no_sep_string_of_uint d : Path.no_sep (NilEmpty.string_of_uint d) = true.
Proof. induction d; simpl; done. Qed.

(** The ids the reference world hands out are ordinary path segments. *)
Lemma fresh_uuid_plain w : Path.plain_segment (fst (EtcdModel.fresh_uuid w)) = true.
Proof.
  unfold EtcdModel.fresh_uuid, Path.plain_segment. cbn [fst].
  pose proof (no_sep_string_of_uint (Nat.to_uint (EtcdModel.uuids w))) as Hdigits.
  set (digits := NilEmpty.string_of_uint _) in *.
  change ("id-" +:+ digits) with (String "i" (String "d" (String "-" digits))).
  cbn. by rewrite Hdigits.
Qed.

Lemma outlasts_live now d ttl value :
  EtcdModel.live (now + d)
    {| EtcdModel.e_value := value;
       EtcdModel.e_expires := (fun s => now + 1000 * s) <$> ttl |} =
  StoreShape.outlasts ttl d.
Proof.
  unfold EtcdModel.live, StoreShape.outlasts. destruct ttl as [t|]; [|done]. cbn.
  destruct (Z.ltb_spec d (1000 * t)), (Z.ltb_spec (now + d) (now + 1000 * t)); lia.
Qed.

(** The store after [register], for a name under which nothing was
    stored. *)
Lemma register_store_shape name (connection opts : Blob) r :
  let u := fst (Random_uuid (Registry._etcd r)) in
  let record := {| ServiceDefinition.id := u;
                   ServiceDefinition.name := name;
                   ServiceDefinition.connection := connection;
                   ServiceDefinition.options := None |} in
  let dir := [SERVICES_KEY; name] in
  let r1 := snd (Registry.register name connection opts r) in
  Path.plain_segment name = true →
  StoreShape.clear_of dir (Registry._etcd r) = true →
  EtcdModel.find_entry dir (EtcdModel.entries (Registry._etcd r1)) = None
  ∧ StoreShape.under dir (EtcdModel.entries (Registry._etcd r1)) =
      [(dir ++ [u],
        {| EtcdModel.e_value := stringify record;
           EtcdModel.e_expires :=
             (fun s => EtcdModel.now (Registry._etcd r) + 1000 * s) <$>
               (Registry._options r !! "ttl") |})]
  ∧ EtcdModel.now (Registry._etcd r1) = EtcdModel.now (Registry._etcd r)
  ∧ Registry._services r1 = Registry._services r
  ∧ Registry._options r1 = Registry._options r.
Proof.
  intros u record dir r1 Hname Hclear.
  destruct (clear_of_under dir _ Hclear) as [Hunder Hfind].
  pose proof (fresh_uuid_plain (Registry._etcd r)) as Hu. fold u in Hu.
  assert (EtcdModel.key_segments (Path.join [SERVICES_KEY; name; u]) = dir ++ [u]) as Hrkey.
  { apply key_segments_join_plain; [done|by repeat constructor]. }
  assert (EtcdModel.key_segments (Path.join [SERVICES_OPTIONS_KEY; name]) =
          [SERVICES_OPTIONS_KEY; name]) as Hokey.
  { apply key_segments_join_plain; [done|by repeat constructor]. }
  subst r1. rewrite register_unfold. cbn [snd Registry._etcd Registry._services
    Registry._options etcd_set EtcdModel.world]. fold u.
  unfold EtcdModel.write. cbn [EtcdModel.entries EtcdModel.now ttl].
  rewrite Hrkey, Hokey.
  assert (EtcdModel.now (snd (Random_uuid (Registry._etcd r))) =
          EtcdModel.now (Registry._etcd r)) as Hnow by reflexivity.
  assert (EtcdModel.entries (snd (Random_uuid (Registry._etcd r))) =
          EtcdModel.entries (Registry._etcd r)) as Hentries by reflexivity.
  rewrite Hnow, Hentries.
  split_and!; [| |done|done|done].
  - rewrite !find_entry_put_ne; [done| |].
    + cbn. by rewrite String.eqb_refl, andb_false_r.
    + done.
  - rewrite under_put_outside by done.
    apply under_put_fresh; [done|].
    unfold StoreShape.is_under. by rewrite strip_app.
Qed.

(** After [register] on a store that held nothing under the name, a
    [getService] from an instance that has not cached the name returns
    exactly the registered record for as long as its lease lasts, and
    [undefined] from then on; with no [ttl] option there is no lease and
    the record never goes away. *)
Theorem registered_record_visible_until_lease_ends name (connection opts : Blob) r (d : Z) :
  let u := fst (Random_uuid (Registry._etcd r)) in
  let record := {| ServiceDefinition.id := u;
                   ServiceDefinition.name := name;
                   ServiceDefinition.connection := connection;
                   ServiceDefinition.options := None |} in
  let r1 := snd (Registry.register name connection opts r) in
  Path.plain_segment name = true →
  parse (Some (stringify record)) = Some record →
  StoreShape.clear_of [SERVICES_KEY; name] (Registry._etcd r) = true →
  Lookup.cached (Registry._services r) name = None →
  fst (Registry.register name connection opts r) = Normal u
  ∧ fst (Registry.getService name (EtcdModel.elapse d r1)) =
      if StoreShape.outlasts (Registry._options r !! "ttl") d
      then Normal (Some [record])
      else Normal None.
Proof.
  intros u record r1 Hname Hparse Hclear Hmiss.
  split; [by rewrite register_unfold|].
  destruct (register_store_shape name connection opts r Hname Hclear)
    as (Hfind & Hunder & Hnow & Hcache & _).
  fold r1 u record in Hfind, Hunder, Hnow, Hcache.
  set (key := Path.join [SERVICES_KEY; name]).
  assert (EtcdModel.key_segments key = [SERVICES_KEY; name]) as Hkey.
  { apply key_segments_join_plain; [done|by repeat constructor]. }
  set (r2 := EtcdModel.elapse d r1).
  assert (EtcdModel.read 8 key (Registry._etcd r2) =
          if StoreShape.outlasts (Registry._options r !! "ttl") d
          then {| err := None;
                  body := Some {| node := Some
                    (Node (EtcdModel.render [SERVICES_KEY; name]) None
                       (Some [Node (EtcdModel.render ([SERVICES_KEY; name] ++ [u]))
                                (Some (stringify record)) None])) |} |}
          else EtcdModel.key_not_found) as Hread.
  { rewrite (read_single_record 7 key _ u _ (Registry._etcd r2) Hkey Hfind Hunder).
    assert (EtcdModel.now (Registry._etcd r2) = EtcdModel.now (Registry._etcd r) + d)
      as -> by (rewrite <- Hnow; reflexivity).
    by rewrite outlasts_live. }
  assert (fst (etcd_getSync key (Registry._etcd r2)) =
          EtcdModel.read 8 key (Registry._etcd r2)) as Hget by reflexivity.
  assert (Registry._services r2 = Registry._services r) as Hcache2 by exact Hcache.
  unfold Registry.getService. rewrite _getService_retried, Hcache2, Hmiss. fold key.
  destruct (StoreShape.outlasts _ d).
  - cbn [Lookup.retried_read]. rewrite Hget, Hread.
    unfold Lookup.read_outcome. cbn. by rewrite Hparse.
  - rewrite retried_read_all_fail; [done|].
    apply next_reads_same. by rewrite Hread.
Qed.

(** A lookup of a name under which the store holds one record. *)
Lemma getService_single_record name r u e :
  Path.plain_segment name = true →
  Lookup.cached (Registry._services r) name = None →
  EtcdModel.find_entry [SERVICES_KEY; name] (EtcdModel.entries (Registry._etcd r)) = None →
  StoreShape.under [SERVICES_KEY; name] (EtcdModel.entries (Registry._etcd r)) =
    [([SERVICES_KEY; name] ++ [u], e)] →
  fst (Registry.getService name r) =
    if EtcdModel.live (EtcdModel.now (Registry._etcd r)) e
    then match parse (Some (EtcdModel.e_value e)) with
         | Some record => Normal (Some [record])
         | None => Normal None
         end
    else Normal None.
Proof.
  intros Hname Hmiss Hfind Hunder.
  set (key := Path.join [SERVICES_KEY; name]).
  assert (EtcdModel.key_segments key = [SERVICES_KEY; name]) as Hkey.
  { apply key_segments_join_plain; [done|by repeat constructor]. }
  pose proof (read_single_record 7 key _ u _ (Registry._etcd r) Hkey Hfind Hunder) as Hread.
  assert (fst (etcd_getSync key (Registry._etcd r)) =
          EtcdModel.read 8 key (Registry._etcd r)) as Hget by reflexivity.
  unfold Registry.getService. rewrite _getService_retried, Hmiss. fold key.
  destruct (EtcdModel.live _ e).
  - destruct (parse (Some (EtcdModel.e_value e))) as [record|] eqn:Hparse.
    + cbn [Lookup.retried_read]. rewrite Hget, Hread.
      unfold Lookup.read_outcome. cbn. by rewrite Hparse.
    + rewrite retried_read_all_fail; [done|].
      apply next_reads_same. rewrite Hread.
      unfold Lookup.read_fails, Lookup.read_outcome. cbn. by rewrite Hparse.
  - rewrite retried_read_all_fail; [done|].
    apply next_reads_same. by rewrite Hread.
Qed.

(** [renew] starts the lease afresh: renewed while it is still visible,
    the record stays visible for a full [ttl] from the renewal, however
    much of the first lease was used up, where it would otherwise have
    gone when the first lease ended; a [renew] that comes after the
    record has expired (by an instance that has not cached it) writes
    nothing. *)
Theorem renew_restarts_the_lease name (connection opts : Blob) r (d1 d2 : Z) :
  let u := fst (Random_uuid (Registry._etcd r)) in
  let record := {| ServiceDefinition.id := u;
                   ServiceDefinition.name := name;
                   ServiceDefinition.connection := connection;
                   ServiceDefinition.options := None |} in
  let lease := Registry._options r !! "ttl" in
  let r1 := snd (Registry.register name connection opts r) in
  let r2 := EtcdModel.elapse d1 r1 in
  let r3 := snd (Registry.renew name (JsString u) r2) in
  Path.plain_segment name = true →
  parse (Some (stringify record)) = Some record →
  StoreShape.clear_of [SERVICES_KEY; name] (Registry._etcd r) = true →
  Lookup.cached (Registry._services r) name = None →
  (StoreShape.outlasts lease d1 = true →
     fst (Registry.getService name (EtcdModel.elapse d2 r3)) =
       if StoreShape.outlasts lease d2 then Normal (Some [record]) else Normal None)
  ∧ fst (Registry.getService name (EtcdModel.elapse d2 r2)) =
      (if StoreShape.outlasts lease (d1 + d2) then Normal (Some [record]) else Normal None)
  ∧ (StoreShape.outlasts lease d1 = false → Registry._etcd r3 = Registry._etcd r2).
Proof.
  intros u record lease r1 r2 r3 Hname Hparse Hclear Hmiss.
  destruct (register_store_shape name connection opts r Hname Hclear)
    as (Hfind & Hunder & Hnow & Hcache & Hopts).
  fold r1 u record lease in Hfind, Hunder, Hnow, Hcache, Hopts.
  assert (fst (Registry.getService name r2) =
          if StoreShape.outlasts lease d1 then Normal (Some [record]) else Normal None)
    as Hseen.
  { pose proof (getService_single_record name r2 u
                  {| EtcdModel.e_value := stringify record;
                     EtcdModel.e_expires :=
                       (fun s => EtcdModel.now (Registry._etcd r) + 1000 * s) <$> lease |}
                  Hname) as Hlook.
    assert (EtcdModel.entries (Registry._etcd r2) =
            EtcdModel.entries (Registry._etcd r1)) as Hent by reflexivity.
    assert (EtcdModel.now (Registry._etcd r2) = EtcdModel.now (Registry._etcd r) + d1)
      as Hnow2 by (rewrite <- Hnow; reflexivity).
    assert (Registry._services r2 = Registry._services r) as Hc2 by exact Hcache.
    rewrite Hent, Hnow2, Hc2 in Hlook.
    rewrite (Hlook Hmiss Hfind Hunder).
    rewrite outlasts_live. cbn [EtcdModel.e_value]. by rewrite Hparse. }
  destruct (getService_run name r2) as (found & k & Heq & _).
  rewrite Heq in Hseen. cbn [fst] in Hseen.
  set (rk := Lookup.after_reads (Path.join [SERVICES_KEY; name]) k r2) in *.
  assert (Registry._etcd rk = Registry._etcd r2) as Hwk by apply etcd_after_reads.
  assert (Registry._services rk = Registry._services r) as Hck.
  { subst rk. rewrite cached_after_reads. exact Hcache. }
  assert (Registry._options rk = Registry._options r) as Hok.
  { subst rk. rewrite options_after_reads. exact Hopts. }
  split_and!.
  - intros Hlive. rewrite Hlive in Hseen. injection Hseen as ->.
    assert (r3 = snd (Registry._saveService record rk)) as Hr3.
    { subst r3. unfold Registry.renew, Registry.bind. rewrite Heq.
      cbn [List.find strict_eq ServiceDefinition.id record].
      by rewrite String.eqb_refl. }
    pose proof (fresh_uuid_plain (Registry._etcd r)) as Hu. fold u in Hu.
    assert (EtcdModel.key_segments (Path.join [SERVICES_KEY; name; u]) =
            [SERVICES_KEY; name] ++ [u]) as Hrkey.
    { apply key_segments_join_plain; [done|by repeat constructor]. }
    set (e3 := {| EtcdModel.e_value := stringify record;
                  EtcdModel.e_expires :=
                    (fun s => (EtcdModel.now (Registry._etcd r) + d1) + 1000 * s) <$>
                      lease |}).
    assert (EtcdModel.entries (Registry._etcd r3) =
            EtcdModel.put ([SERVICES_KEY; name] ++ [u]) e3
              (EtcdModel.entries (Registry._etcd r1))
            ∧ EtcdModel.now (Registry._etcd r3) = EtcdModel.now (Registry._etcd r) + d1
            ∧ Registry._services r3 = Registry._services r) as (Hentries & Hnow3 & Hc3).
    { rewrite Hr3. unfold Registry._saveService, Registry.bind, Registry.get_options,
        Registry.set.
      cbn [snd Registry.log Registry.with_etcd Registry._etcd Registry._services
           etcd_set EtcdModel.world ServiceDefinition.name ServiceDefinition.id record].
      unfold EtcdModel.write. cbn [EtcdModel.entries EtcdModel.now ttl].
      rewrite Hrkey, Hwk, Hok. subst e3 lease. rewrite <- Hnow.
      split_and!; [reflexivity|reflexivity|exact Hck]. }
    pose proof (getService_single_record name (EtcdModel.elapse d2 r3) u e3 Hname) as Hlook.
    assert (EtcdModel.entries (Registry._etcd (EtcdModel.elapse d2 r3)) =
            EtcdModel.entries (Registry._etcd r3)) as Hent by reflexivity.
    assert (EtcdModel.now (Registry._etcd (EtcdModel.elapse d2 r3)) =
            EtcdModel.now (Registry._etcd r) + d1 + d2) as Hnow4.
    { rewrite <- Hnow3. reflexivity. }
    assert (Registry._services (EtcdModel.elapse d2 r3) = Registry._services r) as Hc4
      by exact Hc3.
    rewrite Hent, Hentries, Hnow4, Hc4 in Hlook.
    rewrite Hlook; [|done| |].
    + subst e3. rewrite outlasts_live. cbn [EtcdModel.e_value]. by rewrite Hparse.
    + rewrite find_entry_put_ne; [done|].
      cbn. by rewrite String.eqb_refl, andb_false_r.
    + by apply (under_put_same _ _ _ e3) in Hunder.
  - pose proof (getService_single_record name (EtcdModel.elapse d2 r2) u
                  {| EtcdModel.e_value := stringify record;
                     EtcdModel.e_expires :=
                       (fun s => EtcdModel.now (Registry._etcd r) + 1000 * s) <$> lease |}
                  Hname) as Hlook.
    assert (EtcdModel.entries (Registry._etcd (EtcdModel.elapse d2 r2)) =
            EtcdModel.entries (Registry._etcd r1)) as Hent by reflexivity.
    assert (EtcdModel.now (Registry._etcd (EtcdModel.elapse d2 r2)) =
            EtcdModel.now (Registry._etcd r) + (d1 + d2)) as Hnow4.
    { rewrite <- Hnow. cbn. lia. }
    assert (Registry._services (EtcdModel.elapse d2 r2) = Registry._services r) as Hc4
      by exact Hcache.
    rewrite Hent, Hnow4, Hc4 in Hlook.
    rewrite (Hlook Hmiss Hfind Hunder).
    rewrite outlasts_live. cbn [EtcdModel.e_value]. by rewrite Hparse.
  - intros Hgone. rewrite Hgone in Hseen. injection Hseen as ->.
    subst r3. unfold Registry.renew, Registry.bind. rewrite Heq. exact Hwk.
Qed.

Lemma register_store_under_services name (connection opts : Blob) r :
  let u := fst (Random_uuid (Registry._etcd r)) in
  let record := {| ServiceDefinition.id := u;
                   ServiceDefinition.name := name;
                   ServiceDefinition.connection := connection;
                   ServiceDefinition.options := None |} in
  let r1 := snd (Registry.register name connection opts r) in
  Path.plain_segment name = true →
  StoreShape.clear_of [SERVICES_KEY] (Registry._etcd r) = true →
  EtcdModel.find_entry [SERVICES_KEY] (EtcdModel.entries (Registry._etcd r1)) = None
  ∧ StoreShape.under [SERVICES_KEY] (EtcdModel.entries (Registry._etcd r1)) =
      [([SERVICES_KEY] ++ [name; u],
        {| EtcdModel.e_value := stringify record;
           EtcdModel.e_expires :=
             (fun s => EtcdModel.now (Registry._etcd r) + 1000 * s) <$>
               (Registry._options r !! "ttl") |})].
Proof.
  intros u record r1 Hname Hclear.
  destruct (clear_of_under [SERVICES_KEY] _ Hclear) as [Hunder Hfind].
  pose proof (fresh_uuid_plain (Registry._etcd r)) as Hu. fold u in Hu.
  assert (EtcdModel.key_segments (Path.join [SERVICES_KEY; name; u]) =
          [SERVICES_KEY] ++ [name; u]) as Hrkey.
  { apply key_segments_join_plain; [done|by repeat constructor]. }
  assert (EtcdModel.key_segments (Path.join [SERVICES_OPTIONS_KEY; name]) =
          [SERVICES_OPTIONS_KEY; name]) as Hokey.
  { apply key_segments_join_plain; [done|by repeat constructor]. }
  subst r1. rewrite register_unfold. cbn [snd Registry._etcd etcd_set EtcdModel.world].
  fold u. unfold EtcdModel.write. cbn [EtcdModel.entries EtcdModel.now ttl].
  rewrite Hrkey, Hokey.
  assert (EtcdModel.now (snd (Random_uuid (Registry._etcd r))) =
          EtcdModel.now (Registry._etcd r)) as Hnow by reflexivity.
  assert (EtcdModel.entries (snd (Random_uuid (Registry._etcd r))) =
          EtcdModel.entries (Registry._etcd r)) as Hentries by reflexivity.
  rewrite Hnow, Hentries. split.
  - by rewrite !find_entry_put_ne.
  - rewrite under_put_outside by done.
    apply under_put_fresh; [done|].
    unfold StoreShape.is_under. by rewrite strip_app.
Qed.

(** What a recursive read of [services] answers when one record is
    stored under it. *)
Lemma read_services_single_record name u e w :
  EtcdModel.find_entry [SERVICES_KEY] (EtcdModel.entries w) = None →
  StoreShape.under [SERVICES_KEY] (EtcdModel.entries w) =
    [([SERVICES_KEY] ++ [name; u], e)] →
  StoreShape.under [SERVICES_KEY; name] (EtcdModel.entries w) =
    [([SERVICES_KEY; name] ++ [u], e)] →
  EtcdModel.read 8 SERVICES_KEY w =
    if EtcdModel.live (EtcdModel.now w) e
    then {| err := None;
            body := Some {| node := Some
              (Node (EtcdModel.render [SERVICES_KEY]) None
                 (Some [Node (EtcdModel.render [SERVICES_KEY; name]) None
                          (Some [Node (EtcdModel.render [SERVICES_KEY; name; u])
                                   (Some (EtcdModel.e_value e)) None])])) |} |}
    else EtcdModel.key_not_found.
Proof.
  intros Hfind Hroot Hdir. unfold EtcdModel.read.
  assert (EtcdModel.key_segments SERVICES_KEY = [SERVICES_KEY]) as -> by reflexivity.
  rewrite Hfind. cbn [EtcdModel.children].
  rewrite !below_under, Hroot. cbn [List.filter].
  destruct (EtcdModel.live _ e) eqn:Hlive; [|done].
  cbn [flat_map]. rewrite strip_app. cbn [app EtcdModel.dedup existsb List.map].
  rewrite below_under, Hdir. cbn [List.filter]. rewrite Hlive.
  cbn [flat_map]. rewrite strip_app. reflexivity.
Qed.

(** A reload caches what the store holds at that moment: with one record
    registered under [services], a change event that arrives while the
    record is live leaves the cache holding exactly that record under its
    name, and [getService] then answers from the cache without a read; a
    change event that arrives after the lease has ended leaves the cache
    empty. *)
Theorem reload_caches_exactly_the_live_record name (connection opts : Blob) r (d : Z) :
  let u := fst (Random_uuid (Registry._etcd r)) in
  let record := {| ServiceDefinition.id := u;
                   ServiceDefinition.name := name;
                   ServiceDefinition.connection := connection;
                   ServiceDefinition.options := None |} in
  let r1 := snd (Registry.register name connection opts r) in
  let r2 :=
    snd (Registry.deliver_loadServices (Registry._loadServices (EtcdModel.elapse d r1))) in
  Path.plain_segment name = true →
  parse (Some (stringify record)) = Some record →
  StoreShape.clear_of [SERVICES_KEY] (Registry._etcd r) = true →
  Registry._services r2 =
    (if StoreShape.outlasts (Registry._options r !! "ttl") d
     then {[ name := [record] ]}
     else ∅)
  ∧ (StoreShape.outlasts (Registry._options r !! "ttl") d = true →
     Registry.getService name r2 = (Normal (Some [record]), r2)).
Proof.
  intros u record r1 r2 Hname Hparse Hclear.
  destruct (register_store_under_services name connection opts r Hname Hclear)
    as (Hfind0 & Hroot).
  destruct (register_store_shape name connection opts r Hname
              (clear_of_longer [SERVICES_KEY] name _ Hclear))
    as (_ & Hdir & Hnow & _).
  fold r1 u record in Hfind0, Hroot, Hdir, Hnow.
  set (w2 := Registry._etcd (EtcdModel.elapse d r1)).
  assert (EtcdModel.read 8 SERVICES_KEY w2 =
          if StoreShape.outlasts (Registry._options r !! "ttl") d
          then {| err := None;
                  body := Some {| node := Some
                    (Node (EtcdModel.render [SERVICES_KEY]) None
                       (Some [Node (EtcdModel.render [SERVICES_KEY; name]) None
                                (Some [Node (EtcdModel.render [SERVICES_KEY; name; u])
                                         (Some (stringify record)) None])])) |} |}
          else EtcdModel.key_not_found) as Hread.
  { rewrite (read_services_single_record name u _ w2 Hfind0 Hroot Hdir).
    assert (EtcdModel.now w2 = EtcdModel.now (Registry._etcd r) + d) as ->
      by (rewrite <- Hnow; reflexivity).
    by rewrite outlasts_live. }
  assert (Path.basename (EtcdModel.render [SERVICES_KEY; name]) = name) as Hbase.
  { destruct (basename_of_services_directory name Hname) as [_ Hb].
    rewrite join_plain in Hb; [exact Hb|done|by repeat constructor]. }
  assert (Registry._services r2 =
          if StoreShape.outlasts (Registry._options r !! "ttl") d
          then {[ name := [record] ]} else ∅) as Hcache.
  { subst r2. unfold Registry.deliver_loadServices.
    assert (etcd_get SERVICES_KEY true
              (Registry._etcd (Registry._loadServices (EtcdModel.elapse d r1))) =
            (EtcdModel.read 8 SERVICES_KEY w2, w2)) as -> by reflexivity.
    rewrite Hread. destruct (StoreShape.outlasts _ d); [|reflexivity].
    unfold Registry._loadServices_callback.
    cbn [err body node Registry._loadServices_each node_nodes node_key
         Registry.parse_nodes node_value].
    rewrite Hparse, Hbase. cbn. by rewrite insert_empty. }
  split; [exact Hcache|].
  intros Hlive. rewrite Hlive in Hcache.
  destruct (getService_run name r2) as (found & k & Heq & _ & _ & Hhit & _).
  destruct (Hhit [record]) as [-> ->]; [|exact Heq].
  unfold Lookup.cached. by rewrite Hcache, lookup_singleton_eq.
Qed.

End StoreFacts.

(* ===================================================================== *)
(** ** The theorems at work on the scenarios *)
(* ===================================================================== *)

#[local] Existing Instances EtcdModel.world EtcdModel.json_service EtcdModel.json_blob.

Example path_join_ordinary :
  Path.join ["services"; "test"; "ab12"] = "services/test/ab12".
Proof. reflexivity. Qed.

Example path_join_dotdot : Path.join ["services"; ".."; "ab12"] = "ab12".
Proof. reflexivity. Qed.

Example path_join_empty_name : Path.join ["services"; EmptyString; "ab12"] = "services/ab12".
Proof. reflexivity. Qed.

Example path_basename_key : Path.basename "/services/test" = "test".
Proof. reflexivity. Qed.

Example register_then_getService :
  fst (Registry.getService "test" Scenario.registered) = Normal (Some [Scenario.the_record]).
Proof. vm_compute. reflexivity. Qed.

Example cache_after_change :
  Registry._services Scenario.synchronized !! "test" = Some [Scenario.the_record].
Proof. vm_compute. reflexivity. Qed.

Example record_expires :
  fst (Registry.getService "test" Scenario.lapsed) = Normal None.
Proof. vm_compute. reflexivity. Qed.

(** Renewing at 4 s moves the lease of the same entry from 5 s to 9 s. *)
Example renew_extends_lease :
  EtcdModel.entries
    (Registry._etcd
       (snd (Registry.renew "test" (JsString "id-0")
               (EtcdModel.elapse 4000 Scenario.registered)))) =
  [(["services"; "test"; "id-0"],
    {| EtcdModel.e_value := "id-0|test|conn"; EtcdModel.e_expires := Some 9000 |});
   (["services-options"; "test"],
    {| EtcdModel.e_value := "opts"; EtcdModel.e_expires := None |})].
Proof. vm_compute. reflexivity. Qed.

(** With no [ttl] option the record gets no lease at all. *)
Example default_registry_writes_without_lease :
  EtcdModel.entries
    (Registry._etcd (snd (Registry.register "test" "conn" "opts" Scenario.plain))) =
  [(["services"; "test"; "id-0"],
    {| EtcdModel.e_value := "id-0|test|conn"; EtcdModel.e_expires := None |});
   (["services-options"; "test"],
    {| EtcdModel.e_value := "opts"; EtcdModel.e_expires := None |})].
Proof. vm_compute. reflexivity. Qed.

Lemma C1_default_ttl_not_applied_witness :
  (∅ : gmap string Z) !! "ttl" = None
  ∧ Registry._options Scenario.plain !! "tll" = Some 120
  ∧ Registry._options Scenario.plain !! "ttl" = None
  ∧ List.filter is_write
      (Lookup.events_since Scenario.plain
         (snd (Registry.register "test" "conn" "opts" Scenario.plain))) =
    [ESet "services/test/id-0" "id-0|test|conn" {| maxRetries := 3; ttl := None |};
     ESet "services-options/test" "opts" {| maxRetries := 3; ttl := None |}].
Proof.
  split; [reflexivity|].
  exact (C1_default_ttl_not_applied EtcdModel.initial ∅ "test" "conn" "opts" eq_refl).
Defined.

Lemma C2_getService_resolution_order_witness :
  (Lookup.cached (Registry._services Scenario.synchronized) "test" =
     Some [Scenario.the_record]
   ∧ Registry.getService "test" Scenario.synchronized =
       (Normal (Some [Scenario.the_record]), Scenario.synchronized))
  ∧ (Lookup.cached (Registry._services Scenario.registered) "nope" = None
     ∧ Lookup.next_reads Lookup.read_fails 6 "services/nope"
         (Registry._etcd Scenario.registered) = true
     ∧ Registry.getService "nope" Scenario.registered =
         (Normal None, Lookup.after_reads "services/nope" 6 Scenario.registered))
  ∧ (∃ found k,
       Registry.getService "test" Scenario.registered =
         (Normal found, Lookup.after_reads "services/test" k Scenario.registered)
       ∧ (1 ≤ k ≤ 6)%nat).
Proof.
  assert (Lookup.cached (Registry._services Scenario.synchronized) "test" =
            Some [Scenario.the_record]) as Hhit by (vm_compute; reflexivity).
  assert (Lookup.cached (Registry._services Scenario.registered) "nope" = None)
    as Hmiss by (vm_compute; reflexivity).
  assert (Lookup.next_reads Lookup.read_fails 6 "services/nope"
            (Registry._etcd Scenario.registered) = true)
    as Hfail by (vm_compute; reflexivity).
  assert (Lookup.cached (Registry._services Scenario.registered) "test" = None)
    as Hmiss' by (vm_compute; reflexivity).
  split_and!; [exact Hhit| |exact Hmiss|exact Hfail| |].
  - exact (proj1 (proj2 (C2_getService_resolution_order "test" Scenario.synchronized))
             _ Hhit).
  - exact (proj2 (proj2 (proj2 (C2_getService_resolution_order "nope" Scenario.registered)))
             Hmiss Hfail).
  - exact (proj1 (proj2 (proj2 (C2_getService_resolution_order "test" Scenario.registered)))
             Hmiss').
Defined.

Lemma C3_renew_unknown_is_noop_witness :
  (∀ nodes node,
      fst (Registry.getService "test" Scenario.registered) = Normal (Some nodes) →
      In node nodes → strict_eq (ServiceDefinition.id node) (JsNumber 9999999) = false)
  ∧ ∃ r' k,
      Registry.renew "test" (JsNumber 9999999) Scenario.registered = (Normal tt, r')
      ∧ r' = Lookup.after_reads "services/test" k Scenario.registered
      ∧ (k ≤ 6)%nat
      ∧ Registry.trace r' =
          Registry.trace Scenario.registered ++ repeat (EGetSync "services/test") k
      ∧ List.filter is_write (Lookup.events_since Scenario.registered r') = []
      ∧ Registry._services r' = Registry._services Scenario.registered
      ∧ Registry._options r' = Registry._options Scenario.registered.
Proof.
  assert (∀ nodes node,
      fst (Registry.getService "test" Scenario.registered) = Normal (Some nodes) →
      In node nodes → strict_eq (ServiceDefinition.id node) (JsNumber 9999999) = false)
    as Hno.
  { intros nodes node Hget Hin. reflexivity. }
  split; [exact Hno|].
  exact (C3_renew_unknown_is_noop "test" (JsNumber 9999999) Scenario.registered Hno).
Defined.

(** On the reference world the store itself is as it was. *)
Example renew_unknown_leaves_store :
  Registry._etcd (snd (Registry.renew "test" (JsNumber 9999999) Scenario.registered)) =
  Registry._etcd Scenario.registered
  ∧ Registry._etcd (snd (Registry.renew "nope" (JsString "id-0") Scenario.registered)) =
    Registry._etcd Scenario.registered.
Proof. split; vm_compute; reflexivity. Qed.

(** On an empty store [getService] makes its six reads back to back: no
    delay separates two attempts. *)
Lemma C4_counterexample :
  let events :=
    Lookup.events_since Scenario.plain (snd (Registry.getService "test" Scenario.plain)) in
  events = repeat (EGetSync "services/test") 6
  ∧ List.filter is_delay events = []
  ∧ Lookup.delay_between_reads events = false.
Proof. vm_compute. split_and!; reflexivity. Qed.

Lemma C4_retry_budget_witness :
  Lookup.options_reads_fail 11 "services-options/nope" Registry.MAX_RETRIES
    (Registry._etcd Scenario.registered) = true
  ∧ (∀ fuel, (11 ≤ fuel)%nat →
       fst (Registry.getServiceOptions fuel "nope" Scenario.registered) = Resolved None)
  ∧ (∀ fuel, (fuel ≤ 10)%nat →
       fst (Registry.getServiceOptions fuel "nope" Scenario.registered) = Pending)
  ∧ List.filter is_delay
      (Lookup.events_since Scenario.registered
         (snd (Registry.getServiceOptions 10 "nope" Scenario.registered))) =
    List.map ESetTimeout [0; 500; 1000; 1500; 2000; 2500; 3000; 3500; 4000; 4500].
Proof.
  assert (Lookup.options_reads_fail 11 "services-options/nope" Registry.MAX_RETRIES
            (Registry._etcd Scenario.registered) = true)
    as Hfail by (vm_compute; reflexivity).
  split; [exact Hfail|].
  destruct (proj2 (C4_retry_budget "nope" Scenario.registered) Hfail)
    as (Hresolved & Hpending & _ & Hdelays).
  split_and!; [exact Hresolved|exact Hpending|exact Hdelays].
Defined.

(** The twelfth and later reads are made although the promise is
    settled: nothing returns after [resolve(undefined)]. *)
Example getServiceOptions_reads_after_settling :
  fst (Registry.getServiceOptions 14 "nope" Scenario.registered) = Resolved None
  ∧ length (List.filter is_read
              (Lookup.events_since Scenario.registered
                 (snd (Registry.getServiceOptions 14 "nope" Scenario.registered)))) = 14%nat.
Proof. split; vm_compute; reflexivity. Qed.

(** One of two stored values does not deserialize: the read is made six
    times and the call ends in [undefined], as it does when nothing is
    stored at all. *)
Lemma C5_counterexample :
  Lookup.read_malformed (fst (etcd_getSync "services/test" Scenario.damaged_store)) = true
  ∧ fst (Registry.getService "test" Scenario.damaged) = Normal None
  ∧ fst (Registry.getService "test" Scenario.plain) = Normal None
  ∧ Lookup.events_since Scenario.damaged
      (snd (Registry.getService "test" Scenario.damaged)) =
    repeat (EGetSync "services/test") 6.
Proof. split_and!; vm_compute; reflexivity. Qed.

Lemma C5_malformed_record_is_retried_witness :
  Lookup.cached (Registry._services Scenario.damaged) "test" = None
  ∧ Lookup.next_reads Lookup.read_malformed 6 "services/test"
      (Registry._etcd Scenario.damaged) = true
  ∧ Registry.getService "test" Scenario.damaged =
      (Normal None, Lookup.after_reads "services/test" 6 Scenario.damaged).
Proof.
  assert (Lookup.cached (Registry._services Scenario.damaged) "test" = None)
    as Hmiss by (vm_compute; reflexivity).
  assert (Lookup.next_reads Lookup.read_malformed 6 "services/test"
            (Registry._etcd Scenario.damaged) = true)
    as Hbad by (vm_compute; reflexivity).
  split_and!; [exact Hmiss|exact Hbad|].
  exact (proj2 (C5_malformed_record_is_retried "test" Scenario.damaged Hmiss) Hbad).
Defined.

(** With a [ttl] option the write of [renew] carries it. *)
Example renew_with_ttl_option :
  let r := EtcdModel.elapse 4000 Scenario.registered in
  Lookup.events_since (snd (Registry.getService "test" r))
    (snd (Registry.renew "test" (JsString "id-0") r)) =
  [ESet "services/test/id-0" "id-0|test|conn" {| maxRetries := 3; ttl := Some 5 |}].
Proof. vm_compute. reflexivity. Qed.

(** A registry built with no [ttl] option renews a record that another
    instance registered with a lease of five seconds: the entry keeps its
    value and loses its lease. *)
Example renew_by_registry_without_ttl_drops_lease :
  let renewer := Registry.constructor (Registry._etcd Scenario.registered) ∅ in
  EtcdModel.find_entry ["services"; "test"; "id-0"]
    (EtcdModel.entries (Registry._etcd renewer)) =
    Some {| EtcdModel.e_value := "id-0|test|conn"; EtcdModel.e_expires := Some 5000 |}
  ∧ EtcdModel.find_entry ["services"; "test"; "id-0"]
      (EtcdModel.entries
         (Registry._etcd (snd (Registry.renew "test" (JsString "id-0") renewer)))) =
    Some {| EtcdModel.e_value := "id-0|test|conn"; EtcdModel.e_expires := None |}.
Proof. split; vm_compute; reflexivity. Qed.

Lemma C6_renew_without_ttl_option_writes_no_lease_witness :
  let r := snd (Registry.register "test" "conn" "opts" Scenario.plain) in
  (∅ : gmap string Z) !! "ttl" = None
  ∧ Registry._options r = Registry._options (Registry.constructor EtcdModel.initial ∅)
  ∧ fst (Registry.getService "test" r) = Normal (Some [Scenario.the_record])
  ∧ List.find (fun n => strict_eq (ServiceDefinition.id n) (JsString "id-0"))
      [Scenario.the_record] = Some Scenario.the_record
  ∧ Lookup.events_since (snd (Registry.getService "test" r))
      (snd (Registry.renew "test" (JsString "id-0") r)) =
    [ESet "services/test/id-0" "id-0|test|conn" {| maxRetries := 3; ttl := None |}].
Proof.
  intros r.
  assert (Registry._options r = Registry._options (Registry.constructor EtcdModel.initial ∅))
    as Hopts by reflexivity.
  assert (fst (Registry.getService "test" r) = Normal (Some [Scenario.the_record]))
    as Hget by (vm_compute; reflexivity).
  assert (List.find (fun n => strict_eq (ServiceDefinition.id n) (JsString "id-0"))
            [Scenario.the_record] = Some Scenario.the_record)
    as Hfind by reflexivity.
  split_and!; [reflexivity|exact Hopts|exact Hget|exact Hfind|].
  exact (proj2 (proj2 (proj2
           (C6_renew_without_ttl_option_writes_no_lease EtcdModel.initial ∅
              "test" (JsString "id-0") r [Scenario.the_record] Scenario.the_record
              eq_refl Hopts Hget Hfind)))).
Defined.

(** Registered under the name [..], the record lands at the key that is
    just its id, and the options at [.]. *)
Lemma C7_counterexample :
  fst (Registry.register ".." "conn" "opts" Scenario.plain) = Normal "id-0"
  ∧ omap Lookup.write_key
      (Lookup.events_since Scenario.plain
         (snd (Registry.register ".." "conn" "opts" Scenario.plain))) = ["id-0"; "."]
  ∧ "id-0" ≠ "services/" +:+ ".." +:+ "/" +:+ "id-0"
  ∧ "." ≠ "services-options/" +:+ "..".
Proof. split_and!; [vm_compute; reflexivity|vm_compute; reflexivity|done|done]. Qed.

Lemma C7_storage_layout_witness :
  Path.plain_segment "test" = true
  ∧ Path.plain_segment (fst (Random_uuid (Registry._etcd Scenario.with_ttl))) = true
  ∧ omap Lookup.write_key
      (Lookup.events_since Scenario.with_ttl
         (snd (Registry.register "test" "conn" "opts" Scenario.with_ttl))) =
    ["services/test/id-0"; "services-options/test"].
Proof.
  split_and!; [reflexivity|reflexivity|].
  exact (proj2 (proj2 (proj2 (proj2
           (C7_storage_layout "test" "conn" "opts" Scenario.with_ttl))))
           eq_refl eq_refl).
Defined.

Lemma C8_getService_never_empty_witness :
  (Registry._services Scenario.registered !! "nope" = Some []
   ∨ Registry._services Scenario.registered !! "nope" = None)
  ∧ Lookup.next_reads Lookup.read_fails 6 (Path.join [SERVICES_KEY; "nope"])
      (Registry._etcd Scenario.registered) = true
  ∧ fst (Registry.getService "nope" Scenario.registered) = Normal None.
Proof.
  assert (Registry._services Scenario.registered !! "nope" = Some []
          ∨ Registry._services Scenario.registered !! "nope" = None)
    as Hcache by (right; vm_compute; reflexivity).
  assert (Lookup.next_reads Lookup.read_fails 6 (Path.join [SERVICES_KEY; "nope"])
            (Registry._etcd Scenario.registered) = true)
    as Hfail by (vm_compute; reflexivity).
  split_and!; [exact Hcache|exact Hfail|].
  exact (proj2 (C8_getService_never_empty "nope" Scenario.registered) Hcache Hfail).
Defined.

Lemma C10_options_outlive_records_witness :
  Path.plain_segment "test" = true
  ∧ parse (Some (stringify ("opts" : Blob))) = Some ("opts" : Blob)
  ∧ Lookup.cached (Registry._services Scenario.lapsed) "test" = None
  ∧ EtcdModel.nothing_live_under ["services"; "test"] (Registry._etcd Scenario.lapsed) = true
  ∧ List.last (Registry.trace Scenario.registered) EUncaught =
      ESet "services-options/test" "opts" {| maxRetries := 3; ttl := None |}
  ∧ (∀ fuel, fst (Registry.getServiceOptions (S fuel) "test" Scenario.lapsed) =
             Resolved (Some "opts"))
  ∧ fst (Registry.getService "test" Scenario.lapsed) = Normal None.
Proof.
  assert (Lookup.cached (Registry._services Scenario.lapsed) "test" = None)
    as Hmiss by (vm_compute; reflexivity).
  assert (EtcdModel.nothing_live_under ["services"; "test"]
            (Registry._etcd Scenario.lapsed) = true)
    as Hdead by (vm_compute; reflexivity).
  destruct (C10_options_outlive_records (JsonUtils0 := EtcdModel.json_service)
              (JsonUtils1 := EtcdModel.json_blob)
              Scenario.with_ttl "test" "conn" "opts" "opts" 6000
              eq_refl eq_refl) as (Hlast & _ & Hopts & Hget & _).
  split_and!; [reflexivity|reflexivity|exact Hmiss|exact Hdead|exact Hlast|exact Hopts|].
  exact (Hget Hmiss Hdead).
Defined.

(* ===================================================================== *)
(** ** The further facts at work on the scenarios *)
(* ===================================================================== *)

#[local] Existing Instance FlakyStore.world.


Lemma reload_stops_at_malformed_value_witness :
  forallb Reload.loads [Outage.good_a; Outage.good_b] = true
  ∧ Registry._loadServices_each
      ([Outage.good_a; Outage.good_b] ++ Outage.bad_c :: [Outage.good_b_later])
      Scenario.plain =
    (Throw SyntaxError,
     snd (Registry._loadServices_each [Outage.good_a; Outage.good_b] Scenario.plain)).
Proof.
  assert (forallb Reload.loads [Outage.good_a; Outage.good_b] = true) as Hpre
    by (vm_compute; reflexivity).
  split; [exact Hpre|].
  exact (reload_stops_at_malformed_value [Outage.good_a; Outage.good_b] Outage.bad_c
           [Outage.good_b_later] [Node "/services/c/x" (Some "garbage") None] SyntaxError
           Scenario.plain Hpre eq_refl eq_refl).
Defined.

Lemma reload_keeps_unlisted_names_witness :
  forallb (fun service => negb (Reload.stored_as "test" service))
    [Outage.good_a; Outage.good_b] = true
  ∧ Registry._services
      (snd (Registry._loadServices_each [Outage.good_a; Outage.good_b]
              Scenario.synchronized)) !! "test" =
    Registry._services Scenario.synchronized !! "test".
Proof.
  assert (forallb (fun service => negb (Reload.stored_as "test" service))
            [Outage.good_a; Outage.good_b] = true) as Hno by (vm_compute; reflexivity).
  split; [exact Hno|].
  exact (reload_keeps_unlisted_names [Outage.good_a; Outage.good_b] "test"
           Scenario.synchronized Hno).
Defined.

Lemma reload_last_directory_wins_witness :
  let listed := [Outage.good_a; Outage.good_b] ++ Outage.good_b_later :: [Outage.good_a] in
  forallb Reload.loads listed = true
  ∧ forallb (fun service => negb (Reload.stored_as "b" service)) [Outage.good_a] = true
  ∧ Registry._services (snd (Registry._loadServices_each listed Scenario.plain)) !! "b" =
      Some [Outage.record "b3" "b"].
Proof.
  intros listed.
  assert (forallb Reload.loads listed = true) as Hok by (vm_compute; reflexivity).
  assert (forallb (fun service => negb (Reload.stored_as "b" service)) [Outage.good_a] = true)
    as Hpost by (vm_compute; reflexivity).
  split_and!; [exact Hok|exact Hpost|].
  exact (proj1 (proj2
           (reload_last_directory_wins [Outage.good_a; Outage.good_b] Outage.good_b_later
              [Outage.good_a] [Node "/services/b/x" (Some "b3|b|conn") None]
              [Outage.record "b3" "b"] Scenario.plain Hok eq_refl eq_refl Hpost))).
Defined.

Lemma getService_returns_first_successful_read_witness :
  Lookup.cached (Registry._services Outage.two_refusals) "test" = None
  ∧ (2 ≤ 5)%nat
  ∧ Lookup.next_reads Lookup.read_fails 2 "services/test"
      (Registry._etcd Outage.two_refusals) = true
  ∧ Registry.getService "test" Outage.two_refusals =
      (Normal (Some [Scenario.the_record]),
       Lookup.after_reads "services/test" 3 Outage.two_refusals)
  ∧ Lookup.events_since Outage.two_refusals
      (snd (Registry.getService "test" Outage.two_refusals)) =
    repeat (EGetSync "services/test") 3.
Proof.
  assert (Lookup.cached (Registry._services Outage.two_refusals) "test" = None)
    as Hmiss by (vm_compute; reflexivity).
  assert (Lookup.next_reads Lookup.read_fails 2 "services/test"
            (Registry._etcd Outage.two_refusals) = true) as Hfail
    by (vm_compute; reflexivity).
  split_and!; [exact Hmiss|lia|exact Hfail|..].
  all: apply (getService_returns_first_successful_read "test" Outage.two_refusals 2
                (Some [Scenario.the_record]) Hmiss); [lia|exact Hfail|vm_compute; reflexivity].
Defined.

Lemma _getService_budget_monotone_witness :
  (2 ≤ 5)%nat
  ∧ fst (Registry._getService 2 "test" Outage.two_refusals) =
      Normal (Some [Scenario.the_record])
  ∧ Registry._getService 5 "test" Outage.two_refusals =
      (Normal (Some [Scenario.the_record]),
       snd (Registry._getService 2 "test" Outage.two_refusals))
  ∧ fst (Registry._getService 1 "test" Outage.two_refusals) = Normal None
  ∧ fst (Registry._getService 0 "test" Outage.two_refusals) = Normal None.
Proof.
  assert (Registry._getService 2 "test" Outage.two_refusals =
            (Normal (Some [Scenario.the_record]),
             snd (Registry._getService 2 "test" Outage.two_refusals))) as Hfound
    by (vm_compute; reflexivity).
  assert (fst (Registry._getService 1 "test" Outage.two_refusals) = Normal None) as Hnone
    by (vm_compute; reflexivity).
  split_and!; [lia|by rewrite Hfound| |exact Hnone|].
  - exact (proj1 (_getService_budget_monotone 2 5 "test" Outage.two_refusals
                    ltac:(lia)) _ _ Hfound).
  - exact (proj2 (_getService_budget_monotone 0 1 "test" Outage.two_refusals
                    ltac:(lia)) Hnone).
Defined.

Lemma getService_does_not_fill_cache_witness :
  Lookup.cached (Registry._services Scenario.registered) "test" = None
  ∧ ∃ found k,
      Registry.getService "test" (snd (Registry.getService "test" Scenario.registered)) =
        (Normal found,
         Lookup.after_reads "services/test" k
           (snd (Registry.getService "test" Scenario.registered)))
      ∧ (1 ≤ k ≤ 6)%nat.
Proof.
  assert (Lookup.cached (Registry._services Scenario.registered) "test" = None)
    as Hmiss by (vm_compute; reflexivity).
  split; [exact Hmiss|].
  exact (proj2 (proj2 (getService_does_not_fill_cache "test" Scenario.registered)) Hmiss).
Defined.

Lemma renew_from_cache_makes_no_read_witness :
  Lookup.cached (Registry._services Scenario.synchronized) "test" =
    Some [Scenario.the_record]
  ∧ Lookup.events_since Scenario.synchronized
      (snd (Registry.renew "test" (JsString "id-0") Scenario.synchronized)) =
    [ESet "services/test/id-0" "id-0|test|conn" {| maxRetries := 3; ttl := Some 5 |}]
  ∧ Registry.renew "test" (JsString "other") Scenario.synchronized =
      (Normal tt, Scenario.synchronized).
Proof.
  assert (Lookup.cached (Registry._services Scenario.synchronized) "test" =
            Some [Scenario.the_record]) as Hhit by (vm_compute; reflexivity).
  split_and!; [exact Hhit| |].
  - exact (proj2 (renew_from_cache_makes_no_read "test" (JsString "id-0")
                    Scenario.synchronized [Scenario.the_record] Hhit)).
  - exact (renew_from_cache_makes_no_read "test" (JsString "other")
             Scenario.synchronized [Scenario.the_record] Hhit).
Defined.

Lemma renew_with_non_string_id_never_writes_witness :
  (∀ s, JsNumber 9999999 ≠ JsString s)
  ∧ ∃ k, Registry.renew "test" (JsNumber 9999999) Scenario.registered =
           (Normal tt, Lookup.after_reads "services/test" k Scenario.registered)
         ∧ (k ≤ 6)%nat
         ∧ List.filter is_write
             (Lookup.events_since Scenario.registered
                (snd (Registry.renew "test" (JsNumber 9999999) Scenario.registered))) = [].
Proof.
  assert (∀ s, JsNumber 9999999 ≠ JsString s) as Hid by (intros s; discriminate).
  split; [exact Hid|].
  exact (renew_with_non_string_id_never_writes "test" (JsNumber 9999999)
           Scenario.registered Hid).
Defined.

Lemma getServiceOptions_stops_at_first_answer_witness :
  Lookup.options_reads_fail 2 "services-options/test" Registry.MAX_RETRIES
    (Registry._etcd Outage.two_refusals) = true
  ∧ OptionsRun.answer_value
      (fst (etcd_get "services-options/test" false
              (OptionsRun.world_after 2 "services-options/test" Registry.MAX_RETRIES
                 (Registry._etcd Outage.two_refusals)))) = Some (Some "opts")
  ∧ parse (A := Blob) (Some "opts") = Some "opts"
  ∧ fst (Registry.getServiceOptions 8 "test" Outage.two_refusals) = Resolved (Some "opts")
  ∧ Lookup.events_since Outage.two_refusals
      (snd (Registry.getServiceOptions 8 "test" Outage.two_refusals)) =
    [EGet "services-options/test"; ESetTimeout 0;
     EGet "services-options/test"; ESetTimeout 500;
     EGet "services-options/test"].
Proof.
  assert (Lookup.options_reads_fail 2 "services-options/test" Registry.MAX_RETRIES
            (Registry._etcd Outage.two_refusals) = true) as Hfail
    by (vm_compute; reflexivity).
  assert (OptionsRun.answer_value
            (fst (etcd_get "services-options/test" false
                    (OptionsRun.world_after 2 "services-options/test" Registry.MAX_RETRIES
                       (Registry._etcd Outage.two_refusals)))) = Some (Some "opts")) as Hans
    by (vm_compute; reflexivity).
  destruct (getServiceOptions_stops_at_first_answer (JsonUtils1 := EtcdModel.json_blob)
              2 5 "test" Outage.two_refusals
              (Some "opts") "opts" Hfail Hans eq_refl) as (Hearly & _ & Hevents).
  split_and!; [exact Hfail|exact Hans|reflexivity|apply Hearly; lia|exact Hevents].
Defined.

Lemma getServiceOptions_hangs_on_malformed_value_witness :
  (2 ≤ 10)%nat
  ∧ Lookup.options_reads_fail 2 "services-options" Registry.MAX_RETRIES
      (Registry._etcd Outage.two_refusals) = true
  ∧ OptionsRun.answer_value
      (fst (etcd_get "services-options" false
              (OptionsRun.world_after 2 "services-options" Registry.MAX_RETRIES
                 (Registry._etcd Outage.two_refusals)))) = Some None
  ∧ parse (A := Blob) None = None
  ∧ fst (Registry.getServiceOptions 8 EmptyString Outage.two_refusals) = Pending
  ∧ Lookup.events_since Outage.two_refusals
      (snd (Registry.getServiceOptions 8 EmptyString Outage.two_refusals)) =
    [EGet "services-options"; ESetTimeout 0;
     EGet "services-options"; ESetTimeout 500;
     EGet "services-options"; EUncaught].
Proof.
  assert (Lookup.options_reads_fail 2 "services-options" Registry.MAX_RETRIES
            (Registry._etcd Outage.two_refusals) = true) as Hfail
    by (vm_compute; reflexivity).
  assert (OptionsRun.answer_value
            (fst (etcd_get "services-options" false
                    (OptionsRun.world_after 2 "services-options" Registry.MAX_RETRIES
                       (Registry._etcd Outage.two_refusals)))) = Some None) as Hans
    by (vm_compute; reflexivity).
  destruct (getServiceOptions_hangs_on_malformed_value (JsonUtils1 := EtcdModel.json_blob)
              2 5 EmptyString Outage.two_refusals
              None ltac:(lia) Hfail Hans eq_refl) as (Hpending & Hevents).
  split_and!; [lia|exact Hfail|exact Hans|reflexivity|exact Hpending|exact Hevents].
Defined.

Lemma getServiceOptions_only_reads_options_key_witness :
  3%nat ≠ 0%nat
  ∧ head (Lookup.events_since Scenario.synchronized
            (snd (Registry.getServiceOptions 3 "test" Scenario.synchronized))) =
      Some (EGet "services-options/test")
  ∧ List.filter is_write
      (Lookup.events_since Scenario.synchronized
         (snd (Registry.getServiceOptions 3 "test" Scenario.synchronized))) = [].
Proof.
  destruct (getServiceOptions_only_reads_options_key 3 "test" Scenario.synchronized)
    as (_ & _ & _ & Hwrites & Hfirst).
  split_and!; [lia|apply Hfirst; lia|exact Hwrites].
Defined.

Lemma constructor_passes_ttl_as_given_witness :
  "ttl" ≠ "tll"
  ∧ Registry._options (Registry.constructor EtcdModel.initial (<["ttl" := 0]> ∅)) !! "ttl" =
      Some 0
  ∧ Lookup.events_since (Registry.constructor EtcdModel.initial (<["ttl" := 0]> ∅))
      (snd (Registry.register "test" "conn" "opts"
              (Registry.constructor EtcdModel.initial (<["ttl" := 0]> ∅)))) =
    [ESet "services/test/id-0" "id-0|test|conn" {| maxRetries := 3; ttl := Some 0 |};
     ESet "services-options/test" "opts" {| maxRetries := 3; ttl := None |}].
Proof.
  assert ("ttl" ≠ "tll") as Hfield by discriminate.
  destruct (constructor_passes_ttl_as_given EtcdModel.initial (<["ttl" := 0]> ∅)
              "test" "conn" "opts") as (Hpass & _ & _ & _ & Hwrites).
  split_and!; [exact Hfield|exact (Hpass "ttl" Hfield)|exact Hwrites].
Defined.

Lemma register_leaves_cache_alone_witness :
  Lookup.cached (Registry._services Scenario.with_ttl) "test" = None
  ∧ ∃ found k,
      Registry.getService "test" Scenario.registered =
        (Normal found, Lookup.after_reads "services/test" k Scenario.registered)
      ∧ (1 ≤ k ≤ 6)%nat.
Proof.
  assert (Lookup.cached (Registry._services Scenario.with_ttl) "test" = None)
    as Hmiss by (vm_compute; reflexivity).
  split; [exact Hmiss|].
  exact (proj2 (proj2 (proj2
           (register_leaves_cache_alone "test" "conn" "opts" Scenario.with_ttl "test")))
           Hmiss).
Defined.

Lemma cache_name_matches_service_name_witness :
  Path.plain_segment "test" = true
  ∧ Path.basename (Path.join [SERVICES_KEY; "test"]) = "test"
  ∧ Path.basename ("/" +:+ Path.join [SERVICES_KEY; "test"]) = "test".
Proof.
  split; [reflexivity|]. exact (cache_name_matches_service_name "test" eq_refl).
Defined.

Lemma registered_record_visible_until_lease_ends_witness :
  Path.plain_segment "test" = true
  ∧ parse (Some (stringify Scenario.the_record)) = Some Scenario.the_record
  ∧ StoreShape.clear_of [SERVICES_KEY; "test"] (Registry._etcd Scenario.with_ttl) = true
  ∧ Lookup.cached (Registry._services Scenario.with_ttl) "test" = None
  ∧ fst (Registry.getService "test" (EtcdModel.elapse 4999 Scenario.registered)) =
      Normal (Some [Scenario.the_record])
  ∧ fst (Registry.getService "test" (EtcdModel.elapse 5000 Scenario.registered)) =
      Normal None.
Proof.
  assert (Lookup.cached (Registry._services Scenario.with_ttl) "test" = None)
    as Hmiss by (vm_compute; reflexivity).
  split_and!; [reflexivity|reflexivity|reflexivity|exact Hmiss|..].
  - exact (proj2 (registered_record_visible_until_lease_ends
                    (JsonUtils0 := EtcdModel.json_service) (JsonUtils1 := EtcdModel.json_blob)
                    "test" "conn" "opts"
                    Scenario.with_ttl 4999 eq_refl eq_refl eq_refl Hmiss)).
  - exact (proj2 (registered_record_visible_until_lease_ends
                    (JsonUtils0 := EtcdModel.json_service) (JsonUtils1 := EtcdModel.json_blob)
                    "test" "conn" "opts"
                    Scenario.with_ttl 5000 eq_refl eq_refl eq_refl Hmiss)).
Defined.

Lemma renew_restarts_the_lease_witness :
  Path.plain_segment "test" = true
  ∧ parse (Some (stringify Scenario.the_record)) = Some Scenario.the_record
  ∧ StoreShape.clear_of [SERVICES_KEY; "test"] (Registry._etcd Scenario.with_ttl) = true
  ∧ Lookup.cached (Registry._services Scenario.with_ttl) "test" = None
  ∧ StoreShape.outlasts (Registry._options Scenario.with_ttl !! "ttl") 4000 = true
  ∧ fst (Registry.getService "test"
           (EtcdModel.elapse 2000
              (snd (Registry.renew "test" (JsString "id-0")
                      (EtcdModel.elapse 4000 Scenario.registered))))) =
      Normal (Some [Scenario.the_record])
  ∧ fst (Registry.getService "test"
           (EtcdModel.elapse 2000 (EtcdModel.elapse 4000 Scenario.registered))) =
      Normal None.
Proof.
  assert (Lookup.cached (Registry._services Scenario.with_ttl) "test" = None)
    as Hmiss by (vm_compute; reflexivity).
  assert (StoreShape.outlasts (Registry._options Scenario.with_ttl !! "ttl") 4000 = true)
    as Hlive by (vm_compute; reflexivity).
  destruct (renew_restarts_the_lease
              (JsonUtils0 := EtcdModel.json_service) (JsonUtils1 := EtcdModel.json_blob)
              "test" "conn" "opts" Scenario.with_ttl 4000 2000
              eq_refl eq_refl eq_refl Hmiss) as (Hrenewed & Hplain & _).
  split_and!; [reflexivity|reflexivity|reflexivity|exact Hmiss|exact Hlive| |exact Hplain].
  exact (Hrenewed Hlive).
Defined.

Lemma reload_caches_exactly_the_live_record_witness :
  Path.plain_segment "test" = true
  ∧ parse (Some (stringify Scenario.the_record)) = Some Scenario.the_record
  ∧ StoreShape.clear_of [SERVICES_KEY] (Registry._etcd Scenario.with_ttl) = true
  ∧ Registry._services
      (snd (Registry.deliver_loadServices
              (Registry._loadServices (EtcdModel.elapse 1000 Scenario.registered)))) =
    {[ "test" := [Scenario.the_record] ]}
  ∧ Registry._services
      (snd (Registry.deliver_loadServices
              (Registry._loadServices (EtcdModel.elapse 6000 Scenario.registered)))) = ∅.
Proof.
  split_and!; [reflexivity|reflexivity|reflexivity|..].
  - exact (proj1 (reload_caches_exactly_the_live_record
                    (JsonUtils0 := EtcdModel.json_service) (JsonUtils1 := EtcdModel.json_blob)
                    "test" "conn" "opts"
                    Scenario.with_ttl 1000 eq_refl eq_refl eq_refl)).
  - exact (proj1 (reload_caches_exactly_the_live_record
                    (JsonUtils0 := EtcdModel.json_service) (JsonUtils1 := EtcdModel.json_blob)
                    "test" "conn" "opts"
                    Scenario.with_ttl 6000 eq_refl eq_refl eq_refl)).
Defined.
